(** * SentSem: WordNet sentence similarity ([src/sentsem.py])

    A shallow embedding of [pos] and [sentsem] together with the parts of
    the Python runtime, [re], numpy and NLTK that the two functions touch.

    Conventions of the embedding:
    - Python exceptions are values of [exn]; code that can raise lives in
      the [Result] monad.
    - The NLTK collaborators (stopword list, tagger, lemmatizer, Lesk
      disambiguator, WordNet path similarity) are the fields of the record
      [NLTK]; every theorem of the generic part holds for all of them.
    - Calls to [lesk] are recorded in a call log threaded through the
      [Traced] monad, so that statements of the form "the disambiguator is
      invoked with ..." are statements about that log.
    - Numbers are rationals [Q]. The code is embedded twice. The
      definitions without suffix compute in exact arithmetic; they carry
      the statements about shapes, exceptions and the call log, which do
      not depend on rounding, and the bounds of the idealised score. The
      definitions with suffix [_fl] take the conversion to [np.float32]
      and the floating-point addition, multiplication and division as the
      fields of a record [Float]; what is proved of them holds for every
      rounding, and [IEEE.single] (round to nearest, ties to even, 24
      significant bits) evaluates them as single precision does.
    - Sentences are [string]s of bytes; [lower] and the [\w+] tokenizer are
      given for ASCII text, and statements about the characters of tokens
      are restricted to it ([is_ascii]). *)

From Stdlib Require Import String Ascii List QArith Qminmax Lqa Lia Bool Arith.
From stdpp Require Import list.
Import ListNotations.

Local Open Scope nat_scope.

(** ** Monads: exceptions and the call log *)

Inductive exn : Type :=
| AttributeError
| IndexError
| TypeError
| ValueError
| ZeroDivisionError.

Inductive Result (A : Type) : Type :=
| OK (a : A)
| Raise (e : exn).

Arguments OK {A} a.
Arguments Raise {A} e.

Class Monad (M : Type -> Type) : Type := {
  ret : forall {A}, A -> M A;
  bind : forall {A B}, M A -> (A -> M B) -> M B
}.

Notation "x <- m ;; k" := (bind m (fun x => k))
  (at level 100, m at next level, right associativity).

#[export] Instance Result_Monad : Monad Result := {
  ret := fun A a => OK a;
  bind := fun A B m k => match m with OK a => k a | Raise e => Raise e end
}.

(** One recorded invocation [lesk(context_sentence, ambiguous_word, pos)]. *)
Record LeskCall : Type := mkCall {
  call_context : string;
  call_word : string;
  call_pos : string
}.

Definition Traced (A : Type) : Type := list LeskCall -> A * list LeskCall.

#[export] Instance Traced_Monad : Monad Traced := {
  ret := fun A a log => (a, log);
  bind := fun A B m k log => let '(a, log') := m log in k a log'
}.

(** ** Python builtins *)

Module Py.

(** [for i in range(n): s = body(i, s)], stopping at the first exception. *)
Fixpoint for_each {S : Type} (l : list nat) (body : nat -> S -> Result S)
    (s : S) : Result S :=
  match l with
  | [] => OK s
  | i :: l' => s' <- body i s ;; for_each l' body s'
  end.

Definition for_range {S : Type} (n : nat) (body : nat -> S -> Result S)
    (s : S) : Result S :=
  for_each (seq 0 n) body s.

(** [l[i]] *)
Definition getitem {A : Type} (l : list A) (i : nat) : Result A :=
  match l !! i with
  | Some x => OK x
  | None => Raise IndexError
  end.

(** [sum(xs)]: left to right from the integer 0. *)
Definition sum (xs : list Q) : Q := fold_left Qplus xs 0%Q.

(** [x / n] for a non-negative integer [n]. *)
Definition truediv (x : Q) (n : nat) : Result Q :=
  if n =? 0 then Raise ZeroDivisionError
  else OK (x / inject_Z (Z.of_nat n))%Q.

(** [word in words] *)
Definition contains (words : list string) (word : string) : bool :=
  existsb (String.eqb word) words.

(** A list comprehension whose element expression makes traced calls. *)
Fixpoint comprehension {A B : Type} (f : A -> Traced B) (l : list A)
    : Traced (list B) :=
  match l with
  | [] => ret []
  | x :: l' => y <- f x ;; ys <- comprehension f l' ;; ret (y :: ys)
  end.

Definition in_range (lo hi : nat) (c : ascii) : bool :=
  (lo <=? nat_of_ascii c) && (nat_of_ascii c <=? hi).

Definition lower_char (c : ascii) : ascii :=
  if in_range 65 90 c then ascii_of_nat (nat_of_ascii c + 32) else c.

(** [s.lower()] *)
Fixpoint lower (s : string) : string :=
  match s with
  | EmptyString => EmptyString
  | String c s' => String (lower_char c) (lower s')
  end.

End Py.

(** ** [RegexpTokenizer(r'\w+').tokenize] *)

Module Re.

Definition is_word_char (c : ascii) : bool :=
  Py.in_range 48 57 c || Py.in_range 65 90 c || Py.in_range 97 122 c
  || (nat_of_ascii c =? 95).

Definition flush (cur : string) : list string :=
  match cur with
  | EmptyString => []
  | _ => [cur]
  end.

(** [cur] is the run of word characters read so far. *)
Fixpoint findall_from (cur : string) (s : string) : list string :=
  match s with
  | EmptyString => flush cur
  | String c s' =>
      if is_word_char c
      then findall_from (String.append cur (String c EmptyString)) s'
      else flush cur ++ findall_from EmptyString s'
  end.

Definition tokenize (s : string) : list string := findall_from EmptyString s.

End Re.

(** ** numpy: two-dimensional arrays *)

Module Np.

Record ndarray : Type := mkArray {
  shape : nat * nat;
  data : list (list Q)
}.

(** [np.zeros((r, c), np.float32)] *)
Definition zeros (r c : nat) : ndarray :=
  {| shape := (r, c); data := replicate r (replicate c 0%Q) |}.

(** [m[row][col] = v] *)
Definition setitem (m : ndarray) (row col : nat) (v : Q) : Result ndarray :=
  if (row <? fst (shape m)) && (col <? snd (shape m))
  then OK {| shape := shape m; data := alter (<[col := v]>) row (data m) |}
  else Raise IndexError.

(** The maximum of a non-empty slice. *)
Definition amax (xs : list Q) : Q :=
  match xs with
  | [] => 0%Q
  | x :: xs' => fold_left Qmax xs' x
  end.

(** [m.max(axis=1)]: one maximum per row; a zero-length axis has no
    identity for [maximum] and raises [ValueError]. *)
Definition max_axis1 (m : ndarray) : Result (list Q) :=
  match snd (shape m) with
  | 0 => Raise ValueError
  | S _ => OK (map amax (data m))
  end.

(** [m.max(axis=0)]: one maximum per column, reducing the rows pairwise. *)
Definition max_axis0 (m : ndarray) : Result (list Q) :=
  match fst (shape m), data m with
  | S _, r0 :: rs => OK (fold_left (zip_with Qmax) rs r0)
  | _, _ => Raise ValueError
  end.

End Np.

(** ** WordNet part-of-speech constants *)

Module wn.
Definition NOUN : string := "n".
Definition VERB : string := "v".
Definition ADJ : string := "a".
Definition ADV : string := "r".
Definition ADJ_SAT : string := "s".
End wn.

(** ** [pos] *)

Definition pos (tag : string) : string :=
  if String.prefix "N" tag || String.eqb tag "MD" then wn.NOUN
  else if String.prefix "J" tag then wn.ADJ
  else if String.prefix "V" tag then wn.VERB
  else if String.prefix "RB" tag then wn.ADV
  else EmptyString.

(** ** The NLTK collaborators *)

Record NLTK (Synset : Type) : Type := mkNLTK {
  (** [stopwords.words('english')] *)
  stopwords : list string;
  (** [nltk.pos_tag(tokens)] *)
  pos_tag : list string -> list (string * string);
  (** [WordNetLemmatizer().lemmatize(word, pos)]; [pos] defaults to ['n'] *)
  lemmatize : string -> string -> string;
  (** [lesk(context_sentence, ambiguous_word, pos)] *)
  lesk : string -> string -> string -> option Synset;
  (** [synset.path_similarity(other)] between two synsets *)
  path_similarity : Synset -> Synset -> option Q
}.

Arguments stopwords {Synset} _.
Arguments pos_tag {Synset} _ _.
Arguments lemmatize {Synset} _ _ _.
Arguments lesk {Synset} _ _ _ _.
Arguments path_similarity {Synset} _ _ _.

Section SentSem.

Context {Synset : Type} (nltk : NLTK Synset).

(** [lemmatizer.lemmatize(word)]: the [pos] argument is left to its
    default. *)
Definition lemmatize_default (word : string) : string :=
  lemmatize nltk word wn.NOUN.

(** Step 3: [[word for word in tokens if word not in stopwords]] *)
Definition remove_stopwords (tokens : list string) : list string :=
  List.filter (fun word => negb (Py.contains (stopwords nltk) word)) tokens.

(** Step 4: [[(w, pos(p)) for (w, p) in nltk.pos_tag(tokens)]] *)
Definition tag_tokens (tokens : list string) : list (string * string) :=
  map (fun '(w, p) => (w, pos p)) (pos_tag nltk tokens).

(** Step 5: [[(lemmatizer.lemmatize(word), p) for (word, p) in text]] *)
Definition lemmatize_text (text : list (string * string))
    : list (string * string) :=
  map (fun '(word, p) => (lemmatize_default word, p)) text.

Definition call_lesk (context word p : string) : Traced (option Synset) :=
  fun log => (lesk nltk context word p, log ++ [mkCall context word p]).

(** Step 6, one element of the comprehension:
    [(word, lesk(sent, word, p)) if lesk(sent, word, p) is not None
     else (word, lesk(fallback, word, 's'))]. *)
Definition sense_token (sent fallback : string) (wp : string * string)
    : Traced (string * option Synset) :=
  let '(word, p) := wp in
  c <- call_lesk sent word p ;;
  match c with
  | Some _ => s <- call_lesk sent word p ;; ret (word, s)
  | None => s <- call_lesk fallback word wn.ADJ_SAT ;; ret (word, s)
  end.

(** [synsets1[row].path_similarity(synsets2[col])]: the attribute lookup
    on [None] raises before the argument is evaluated; a [None] argument
    raises inside NLTK when the two synsets are compared. *)
Definition method_path_similarity (synsets1 synsets2 : list (option Synset))
    (row col : nat) : Result (option Q) :=
  a <- Py.getitem synsets1 row ;;
  match a with
  | None => Raise AttributeError
  | Some x =>
      b <- Py.getitem synsets2 col ;;
      match b with
      | None => Raise AttributeError
      | Some y => OK (path_similarity nltk x y)
      end
  end.

(** Body of the inner loop (steps 7 and 8). *)
Definition cell_body (synsets1 synsets2 : list (option Synset))
    (row col : nat) (sim_matrix : Np.ndarray) : Result Np.ndarray :=
  sim <- method_path_similarity synsets1 synsets2 row col ;;
  match sim with
  | Some _ =>
      v <- method_path_similarity synsets1 synsets2 row col ;;
      match v with
      | Some q => Np.setitem sim_matrix row col q
      | None => Raise TypeError
      end
  | None => Np.setitem sim_matrix row col 0%Q
  end.

Definition build_matrix (synsets1 synsets2 : list (option Synset))
    (len1 len2 : nat) : Result Np.ndarray :=
  Py.for_range len1
    (fun row => Py.for_range len2 (cell_body synsets1 synsets2 row))
    (Np.zeros len1 len2).

(** Steps 9 and 10. *)
Definition aggregate (sim_matrix : Np.ndarray) (len1 len2 : nat)
    : Result Q :=
  if len1 <? len2 then
    maxima <- Np.max_axis1 sim_matrix ;;
    let sim_sum := Py.sum maxima in
    Py.truediv (2 * sim_sum)%Q (len1 + len2)
  else
    maxima <- Np.max_axis0 sim_matrix ;;
    let sim_sum := Py.sum maxima in
    Py.truediv (2 * sim_sum)%Q (len1 + len2).

(** Lines 111-150: everything after word sense disambiguation. *)
Definition similarity (sensed1 sensed2 : list (string * option Synset))
    : Result Q :=
  let synsets1 := map snd sensed1 in
  let synsets2 := map snd sensed2 in
  let len1 := length sensed1 in
  let len2 := length sensed2 in
  sim_matrix <- build_matrix synsets1 synsets2 len1 len2 ;;
  aggregate sim_matrix len1 len2.

Definition sentsem (sent1 sent2 : string) : Traced (Result Q) :=
  let sent1 := Py.lower sent1 in
  let sent2 := Py.lower sent2 in
  let tokens1 := Re.tokenize sent1 in
  let tokens2 := Re.tokenize sent2 in
  let tokens1 := remove_stopwords tokens1 in
  let tokens2 := remove_stopwords tokens2 in
  let text1 := tag_tokens tokens1 in
  let text2 := tag_tokens tokens2 in
  let text1 := lemmatize_text text1 in
  let text2 := lemmatize_text text2 in
  sensed1 <- Py.comprehension (sense_token sent1 sent1) text1 ;;
  sensed2 <- Py.comprehension (sense_token sent2 sent1) text2 ;;
  ret (similarity sensed1 sensed2).

(** *** Names for the intermediate values of a run *)

(** The tokens of a sentence after steps 1 to 3. *)
Definition tokens_of (sent : string) : list string :=
  remove_stopwords (Re.tokenize (Py.lower sent)).

(** The (lemma, category) pairs of a sentence after steps 1 to 5. *)
Definition text_of (sent : string) : list (string * string) :=
  lemmatize_text (tag_tokens (tokens_of sent)).

(** [sensed1] and the calls made while computing it. *)
Definition sensed1_of (sent1 : string)
    : list (string * option Synset) * list LeskCall :=
  Py.comprehension (sense_token (Py.lower sent1) (Py.lower sent1))
    (text_of sent1) [].

(** [sensed2] and the calls made while computing it. *)
Definition sensed2_of (sent1 sent2 : string)
    : list (string * option Synset) * list LeskCall :=
  Py.comprehension (sense_token (Py.lower sent2) (Py.lower sent1))
    (text_of sent2) [].

(** The value returned (or the exception raised) by a call. *)
Definition sentsem_result (sent1 sent2 : string) : Result Q :=
  fst (sentsem sent1 sent2 []).

(** The [lesk] invocations of a call, in order. *)
Definition sentsem_calls (sent1 sent2 : string) : list LeskCall :=
  snd (sentsem sent1 sent2 []).

End SentSem.

(** ** Floating-point arithmetic

    The matrix is an [np.float32] array and the score is computed with
    floating-point operations, each of which rounds. A float is a rational
    number, so values stay in [Q]; what the four operations of lines
    124-150 do to them is a parameter, in the same way as the NLTK
    collaborators. The definitions above are the reading in which no
    operation rounds ([exact_arithmetic] below). *)

Record Float : Type := mkFloat {
  (** conversion of a Python float stored into the [np.float32] matrix *)
  float32 : Q -> Q;
  (** [acc + x] inside [sum] *)
  fadd : Q -> Q -> Q;
  (** [2 * sim_sum] *)
  fmul : Q -> Q -> Q;
  (** [... / (len1 + len2)] *)
  fdiv : Q -> Q -> Q
}.

Definition exact_arithmetic : Float :=
  {| float32 := fun x => x; fadd := Qplus; fmul := Qmult; fdiv := Qdiv |}.

(** IEEE 754 rounding to nearest, ties to even, for values in the normal
    range of the format. *)

Module IEEE.

(** The integer nearest to [n / d], for [0 <= n] and [0 < d]. *)
Definition nearest_even (n d : Z) : Z :=
  let q := (n / d)%Z in
  let r := (n mod d)%Z in
  if (2 * r <? d)%Z then q
  else if (d <? 2 * r)%Z then (q + 1)%Z
  else if Z.even q then q else (q + 1)%Z.

(** [floor (log2 (n / d))] for positive [n] and [d]. *)
Definition floor_log2 (n d : Z) : Z :=
  let k := (Z.log2 n - Z.log2 d)%Z in
  if (d * 2 ^ Z.max 0 k <=? n * 2 ^ Z.max 0 (- k))%Z then k
  else (k - 1)%Z.

(** The positive rational [n / d] rounded to [prec] significant bits. *)
Definition round_pos (prec n d : Z) : Q :=
  let shift := (floor_log2 n d - (prec - 1))%Z in
  let m :=
    nearest_even (n * 2 ^ Z.max 0 (- shift)) (d * 2 ^ Z.max 0 shift) in
  Qred (if (0 <=? shift)%Z then inject_Z (m * 2 ^ shift)
        else Qmake m (Z.to_pos (2 ^ (- shift)))).

Definition round (prec : Z) (x : Q) : Q :=
  match Qnum x with
  | Z0 => 0%Q
  | Zpos n => round_pos prec (Zpos n) (QDen x)
  | Zneg n => Qopp (round_pos prec (Zpos n) (QDen x))
  end.

(** Single precision: 24 significant bits. *)
Definition binary32 (x : Q) : Q := round 24 x.

(** All four operations carried out in [np.float32], as numpy does when
    the other operand is a Python integer. *)
Definition single : Float :=
  {| float32 := binary32;
     fadd := fun a b => binary32 (a + b);
     fmul := fun a b => binary32 (a * b);
     fdiv := fun a b => binary32 (a / b) |}.

End IEEE.

(** ** [sentsem] with the floating-point operations *)

Section SentSemFloat.

Context {Synset : Type} (fl : Float) (nltk : NLTK Synset).

(** Body of the inner loop (steps 7 and 8): the similarity is converted to
    [np.float32] when it is stored; the integer 0 is stored as it is. *)
Definition cell_body_fl (synsets1 synsets2 : list (option Synset))
    (row col : nat) (sim_matrix : Np.ndarray) : Result Np.ndarray :=
  sim <- method_path_similarity nltk synsets1 synsets2 row col ;;
  match sim with
  | Some _ =>
      v <- method_path_similarity nltk synsets1 synsets2 row col ;;
      match v with
      | Some q => Np.setitem sim_matrix row col (float32 fl q)
      | None => Raise TypeError
      end
  | None => Np.setitem sim_matrix row col 0%Q
  end.

Definition build_matrix_fl (synsets1 synsets2 : list (option Synset))
    (len1 len2 : nat) : Result Np.ndarray :=
  Py.for_range len1
    (fun row => Py.for_range len2 (cell_body_fl synsets1 synsets2 row))
    (Np.zeros len1 len2).

(** [sum(xs)]: left to right from the integer 0, rounding after every
    addition. *)
Definition sum_fl (xs : list Q) : Q := fold_left (fadd fl) xs 0%Q.

(** [x / n] for a non-negative integer [n]. *)
Definition truediv_fl (x : Q) (n : nat) : Result Q :=
  if n =? 0 then Raise ZeroDivisionError
  else OK (fdiv fl x (inject_Z (Z.of_nat n))).

(** Steps 9 and 10. *)
Definition aggregate_fl (sim_matrix : Np.ndarray) (len1 len2 : nat)
    : Result Q :=
  if len1 <? len2 then
    maxima <- Np.max_axis1 sim_matrix ;;
    let sim_sum := sum_fl maxima in
    truediv_fl (fmul fl 2 sim_sum) (len1 + len2)
  else
    maxima <- Np.max_axis0 sim_matrix ;;
    let sim_sum := sum_fl maxima in
    truediv_fl (fmul fl 2 sim_sum) (len1 + len2).

(** Lines 111-150. *)
Definition similarity_fl (sensed1 sensed2 : list (string * option Synset))
    : Result Q :=
  let synsets1 := map snd sensed1 in
  let synsets2 := map snd sensed2 in
  let len1 := length sensed1 in
  let len2 := length sensed2 in
  sim_matrix <- build_matrix_fl synsets1 synsets2 len1 len2 ;;
  aggregate_fl sim_matrix len1 len2.

Definition sentsem_fl (sent1 sent2 : string) : Traced (Result Q) :=
  let sent1 := Py.lower sent1 in
  let sent2 := Py.lower sent2 in
  let tokens1 := Re.tokenize sent1 in
  let tokens2 := Re.tokenize sent2 in
  let tokens1 := remove_stopwords nltk tokens1 in
  let tokens2 := remove_stopwords nltk tokens2 in
  let text1 := tag_tokens nltk tokens1 in
  let text2 := tag_tokens nltk tokens2 in
  let text1 := lemmatize_text nltk text1 in
  let text2 := lemmatize_text nltk text2 in
  sensed1 <- Py.comprehension (sense_token nltk sent1 sent1) text1 ;;
  sensed2 <- Py.comprehension (sense_token nltk sent2 sent1) text2 ;;
  ret (similarity_fl sensed1 sensed2).

(** The value returned (or the exception raised) by a call. *)
Definition sentsem_fl_result (sent1 sent2 : string) : Result Q :=
  fst (sentsem_fl sent1 sent2 []).

(** The maxima that line 142 or line 148 sums. *)
Definition summed_maxima (sim_matrix : Np.ndarray) (len1 len2 : nat)
    : Result (list Q) :=
  if len1 <? len2 then Np.max_axis1 sim_matrix
  else Np.max_axis0 sim_matrix.

End SentSemFloat.

(** ** Notions used to state the properties

    None of the definitions below is part of the program; they name what
    the statements talk about. *)

Definition in_unit (q : Q) : Prop := (0 <= q /\ q <= 1)%Q.

(** [x] is the greatest element of the non-empty slice [xs]. *)
Definition is_max_of (x : Q) (xs : list Q) : Prop :=
  In x xs /\ forall y, In y xs -> (y <= x)%Q.

(** Cell [(i, j)] of an array, when it exists. *)
Definition cell (m : Np.ndarray) (i j : nat) : option Q :=
  match Np.data m !! i with
  | Some r => r !! j
  | None => None
  end.

(** The columns of an array, read off by index. *)
Definition columns (m : Np.ndarray) : list (list Q) :=
  map (fun j => map (fun r => nth j r 0%Q) (Np.data m))
      (seq 0 (snd (Np.shape m))).

(** The array has [r] rows of [c] cells each, as its shape says. *)
Definition well_shaped (r c : nat) (m : Np.ndarray) : Prop :=
  Np.shape m = (r, c) /\ length (Np.data m) = r /\
  Forall (fun row => length row = c) (Np.data m).

(** In the words of the specification: the sensed tokens left after
    dropping those with a null sense. [sentsem] has no such filter; the
    notion is only used to state C1. *)
Definition usable {Synset : Type} (sensed : list (string * option Synset))
    : list (string * option Synset) :=
  List.filter (fun ws => match snd ws with Some _ => true | None => false end)
    sensed.

(** The value the matrix loop leaves in cell [(i, j)]: the path similarity
    of the two synsets, 0 where it is undefined. *)
Definition cell_value {Synset : Type} (nltk : NLTK Synset)
    (synsets1 synsets2 : list (option Synset)) (i j : nat) : Q :=
  match synsets1 !! i, synsets2 !! j with
  | Some (Some a), Some (Some b) => default 0%Q (path_similarity nltk a b)
  | _, _ => 0%Q
  end.

(** Loop invariant of the matrix construction: rows before [row] are
    final, and so is row [row] up to column [col]. *)
Definition filled {Synset : Type} (nltk : NLTK Synset)
    (synsets1 synsets2 : list (option Synset)) (r c row col : nat)
    (m : Np.ndarray) : Prop :=
  well_shaped r c m /\
  forall i j, i < row \/ (i = row /\ j < col) -> j < c ->
              cell m i j = Some (cell_value nltk synsets1 synsets2 i j).

(** Every sensed token carries a synset. *)
Definition all_sensed {Synset : Type} (sensed : list (string * option Synset))
    : Prop :=
  Forall (fun ws => snd ws <> None) sensed.

(** The sense a (lemma, category) pair ends up with when [sent] is the
    context of the primary call and [fallback] that of the retry. *)
Definition resolved {Synset : Type} (nltk : NLTK Synset)
    (sent fallback : string) (wp : string * string)
    : string * option Synset :=
  (fst wp,
   match lesk nltk sent (fst wp) (snd wp) with
   | Some x => Some x
   | None => lesk nltk fallback (fst wp) wn.ADJ_SAT
   end).

(** The primary call for a (lemma, category) pair. *)
Definition primary_call (sent : string) (wp : string * string) : LeskCall :=
  mkCall sent (fst wp) (snd wp).

(** The retry with the satellite-adjective category. *)
Definition retry_call (fallback : string) (wp : string * string) : LeskCall :=
  mkCall fallback (fst wp) wn.ADJ_SAT.

(** The two calls made for one (lemma, category) pair. *)
Definition token_calls {Synset : Type} (nltk : NLTK Synset)
    (sent fallback : string) (wp : string * string) : list LeskCall :=
  [primary_call sent wp;
   match lesk nltk sent (fst wp) (snd wp) with
   | Some _ => primary_call sent wp
   | None => retry_call fallback wp
   end].

(** In the words of the specification: lemmatization with the resolved
    category as hint, without hint for the empty category. Only used to
    state C5. *)
Definition hinted_lemma {Synset : Type} (nltk : NLTK Synset)
    (word category : string) : string :=
  if String.eqb category EmptyString then lemmatize_default nltk word
  else lemmatize nltk word category.

(** Every character of the string satisfies [p]. *)
Fixpoint all_chars (p : ascii -> bool) (s : string) : bool :=
  match s with
  | EmptyString => true
  | String c s' => p c && all_chars p s'
  end.

(** A digit, a lowercase ASCII letter or the underscore. *)
Definition is_lower_word_char (c : ascii) : bool :=
  Re.is_word_char c && negb (Py.in_range 65 90 c).

(** The collaborators with every path similarity converted to
    [np.float32]. *)
Definition rounded {Synset : Type} (fl : Float) (nltk : NLTK Synset)
    : NLTK Synset :=
  {| stopwords := stopwords nltk;
     pos_tag := pos_tag nltk;
     lemmatize := lemmatize nltk;
     lesk := lesk nltk;
     path_similarity := fun a b =>
       match path_similarity nltk a b with
       | Some q => Some (float32 fl q)
       | None => None
       end |}.

(** The score as the claims word it: twice the sum of the maxima, added
    left to right, divided by [n]. *)
Definition normalized_sum (fl : Float) (maxima : list Q) (n : nat) : Q :=
  fdiv fl (fmul fl 2 (fold_left (fadd fl) maxima 0%Q))
    (inject_Z (Z.of_nat n)).

(** A character of the ASCII range. *)
Definition is_ascii (c : ascii) : bool := nat_of_ascii c <? 128.

(** Assumptions on the collaborators, named where a theorem needs them. *)

(** The tagger returns one (token, tag) pair per token, in order. *)
Definition tagger_aligned {Synset : Type} (nltk : NLTK Synset) : Prop :=
  forall tokens, map fst (pos_tag nltk tokens) = tokens.

(** Every defined path similarity lies in the unit interval. *)
Definition similarity_in_unit {Synset : Type} (nltk : NLTK Synset) : Prop :=
  forall a b q, path_similarity nltk a b = Some q -> in_unit q.


(** ** A miniature lexicon on which the pipeline can be run *)

Module Mini.

Local Open Scope string_scope.

Definition stop : list string :=
  ["i"; "the"; "of"; "a"; "an"; "on"; "is"].

Definition tag_of (w : string) : string :=
  if String.eqb w "running" then "VBG"
  else if String.eqb w "sat" then "VBD"
  else if String.eqb w "blue" then "JJ"
  else if String.eqb w "fast" then "RB"
  else "NN".

Definition tagger (tokens : list string) : list (string * string) :=
  map (fun w => (w, tag_of w)) tokens.

Definition lemma_of (w p : string) : string :=
  if String.eqb w "running" && String.eqb p "v" then "run"
  else if String.eqb w "dogs" && String.eqb p "n" then "dog"
  else w.

(** Synsets are identified by their WordNet names. *)
Definition sense (context w p : string) : option string :=
  if String.eqb w "dog" && String.eqb p "n" then Some "dog.n.01"
  else if String.eqb w "cat" && String.eqb p "n" then Some "cat.n.01"
  else if String.eqb w "running" && String.eqb p "n" then Some "running.n.01"
  else if String.eqb w "run" && String.eqb p "v" then Some "run.v.01"
  else if String.eqb w "sat" && String.eqb p "v" then Some "sit.v.01"
  else if String.eqb w "blue" && String.eqb p "s" then Some "blue.s.01"
  else None.

Definition path (a b : string) : option Q :=
  if String.eqb a b then Some 1%Q
  else if String.eqb a "dog.n.01" && String.eqb b "cat.n.01" then Some (1 # 5)%Q
  else if String.eqb a "cat.n.01" && String.eqb b "dog.n.01" then Some (1 # 5)%Q
  else None.

Definition nltk : NLTK string :=
  {| stopwords := stop; pos_tag := tagger; lemmatize := lemma_of;
     lesk := sense; path_similarity := path |}.

End Mini.

(** * Properties *)

(** ** Loops *)

Section Loops.

Context {S : Type} (body : nat -> S -> Result S) (I : nat -> S -> Prop).

(** An invariant carried by the iterations that complete is carried by
    the loop when it completes. *)
Lemma for_each_seq_inv (n lo : nat) (s s' : S) :
  Py.for_each (seq lo n) body s = OK s' ->
  I lo s ->
  (forall i t t', lo <= i < lo + n -> I i t -> body i t = OK t' ->
                  I (Datatypes.S i) t') ->
  I (lo + n) s'.
Proof.
  revert lo s. induction n as [|n IH]; intros lo s Hrun Hlo Hstep.
  - simpl in Hrun. injection Hrun as <-. now rewrite Nat.add_0_r.
  - simpl in Hrun. destruct (body lo s) as [t|e] eqn:Hb; [|discriminate].
    replace (lo + Datatypes.S n) with (Datatypes.S lo + n) by lia.
    apply (IH (Datatypes.S lo) t Hrun).
    + apply (Hstep lo s t); [lia | assumption | assumption].
    + intros i u u' Hi. apply Hstep. lia.
Qed.

Lemma for_range_inv (n : nat) (s s' : S) :
  Py.for_range n body s = OK s' ->
  I 0 s ->
  (forall i t t', i < n -> I i t -> body i t = OK t' ->
                  I (Datatypes.S i) t') ->
  I n s'.
Proof.
  intros Hrun H0 Hstep.
  apply (for_each_seq_inv n 0 s s' Hrun H0).
  intros i t t' Hi. apply Hstep. lia.
Qed.

(** When every iteration completes under the invariant, so does the loop. *)
Lemma for_each_seq_total (n lo : nat) (s : S) :
  I lo s ->
  (forall i t, lo <= i < lo + n -> I i t ->
               exists t', body i t = OK t' /\ I (Datatypes.S i) t') ->
  exists s', Py.for_each (seq lo n) body s = OK s' /\ I (lo + n) s'.
Proof.
  revert lo s. induction n as [|n IH]; intros lo s Hlo Hstep.
  - exists s. rewrite Nat.add_0_r. now split.
  - destruct (Hstep lo s) as (t & Hb & Ht); [lia | assumption |].
    destruct (IH (Datatypes.S lo) t Ht) as (s' & Hrun & Hs').
    + intros i u Hi. apply Hstep. lia.
    + exists s'. simpl. rewrite Hb.
      replace (lo + Datatypes.S n) with (Datatypes.S lo + n) by lia.
      now split.
Qed.

Lemma for_range_total (n : nat) (s : S) :
  I 0 s ->
  (forall i t, i < n -> I i t ->
               exists t', body i t = OK t' /\ I (Datatypes.S i) t') ->
  exists s', Py.for_range n body s = OK s' /\ I n s'.
Proof.
  intros H0 Hstep.
  apply (for_each_seq_total n 0 s H0).
  intros i t Hi. apply Hstep. lia.
Qed.

End Loops.

(** ** Arrays *)

Lemma zeros_well_shaped (r c : nat) : well_shaped r c (Np.zeros r c).
Proof.
  unfold well_shaped, Np.zeros; simpl. split; [reflexivity|].
  split; [apply length_replicate|].
  apply Forall_lookup. intros i row Hi.
  apply lookup_replicate in Hi as [-> _].
  apply length_replicate.
Qed.

Lemma setitem_ok (r c : nat) (m : Np.ndarray) (row col : nat) (v : Q) :
  well_shaped r c m -> row < r -> col < c ->
  exists m', Np.setitem m row col v = OK m'.
Proof.
  intros (Hs & _ & _) Hr Hc. unfold Np.setitem. rewrite Hs. simpl.
  destruct (Nat.ltb_spec row r); [|lia].
  destruct (Nat.ltb_spec col c); [|lia].
  simpl. eauto.
Qed.

Lemma setitem_spec (r c : nat) (m m' : Np.ndarray) (row col : nat) (v : Q) :
  well_shaped r c m ->
  Np.setitem m row col v = OK m' ->
  well_shaped r c m' /\
  row < r /\ col < c /\
  cell m' row col = Some v /\
  (forall i j, (i, j) <> (row, col) -> cell m' i j = cell m i j).
Proof.
  intros (Hs & Hlen & Hrows) Hset. unfold Np.setitem in Hset.
  rewrite Hs in Hset. simpl in Hset.
  destruct (Nat.ltb_spec row r) as [Hr|]; [|discriminate].
  destruct (Nat.ltb_spec col c) as [Hc|]; [|discriminate].
  simpl in Hset. injection Hset as <-.
  assert (Hrow : exists old, Np.data m !! row = Some old /\ length old = c).
  { destruct (lookup_lt_is_Some_2 (Np.data m) row) as [old Hold]; [lia|].
    exists old. split; [assumption|].
    rewrite Forall_lookup in Hrows. now apply (Hrows row). }
  destruct Hrow as (old & Hold & Holdlen).
  split; [|split; [assumption|split; [assumption|split]]].
  - unfold well_shaped; simpl. split; [reflexivity|].
    split; [now rewrite length_alter|].
    apply Forall_alter; [assumption|].
    intros x _ Hx. now rewrite length_insert.
  - unfold cell; simpl. rewrite list_lookup_alter_eq, Hold. simpl.
    apply list_lookup_insert_eq. lia.
  - intros i j Hne. unfold cell; simpl.
    destruct (Nat.eq_dec i row) as [->|Hi].
    + rewrite list_lookup_alter_eq, Hold. simpl.
      apply list_lookup_insert_ne. congruence.
    + rewrite list_lookup_alter_ne by congruence. reflexivity.
Qed.

(** ** The similarity matrix *)

Section Matrix.

Context {Synset : Type} (nltk : NLTK Synset).
Variables synsets1 synsets2 : list (option Synset).

Lemma method_path_similarity_ok (row col : nat) (sim : option Q) :
  method_path_similarity nltk synsets1 synsets2 row col = OK sim ->
  exists a b, synsets1 !! row = Some (Some a) /\
              synsets2 !! col = Some (Some b) /\
              sim = path_similarity nltk a b.
Proof.
  unfold method_path_similarity, Py.getitem. simpl.
  destruct (synsets1 !! row) as [[a|]|]; try discriminate.
  destruct (synsets2 !! col) as [[b|]|]; try discriminate.
  intros [= <-]. eauto.
Qed.

Lemma method_path_similarity_some (row col : nat) (a b : Synset) :
  synsets1 !! row = Some (Some a) -> synsets2 !! col = Some (Some b) ->
  method_path_similarity nltk synsets1 synsets2 row col
  = OK (path_similarity nltk a b).
Proof.
  intros Ha Hb. unfold method_path_similarity, Py.getitem. simpl.
  now rewrite Ha, Hb.
Qed.

Lemma cell_body_spec (r c row col : nat) (m m' : Np.ndarray) :
  well_shaped r c m ->
  cell_body nltk synsets1 synsets2 row col m = OK m' ->
  well_shaped r c m' /\
  cell m' row col = Some (cell_value nltk synsets1 synsets2 row col) /\
  (forall i j, (i, j) <> (row, col) -> cell m' i j = cell m i j).
Proof.
  intros Hwf. unfold cell_body. simpl.
  destruct (method_path_similarity nltk synsets1 synsets2 row col)
    as [sim|e] eqn:Hsim; [|discriminate].
  destruct (method_path_similarity_ok _ _ _ Hsim) as (a & b & Ha & Hb & ->).
  unfold cell_value. rewrite Ha, Hb.
  destruct (path_similarity nltk a b) as [q|]; simpl; intros Hset;
    destruct (setitem_spec _ _ _ _ _ _ _ Hwf Hset) as (? & _ & _ & ? & ?);
    auto.
Qed.

Lemma cell_body_total (r c row col : nat) (m : Np.ndarray) (a b : Synset) :
  synsets1 !! row = Some (Some a) -> synsets2 !! col = Some (Some b) ->
  well_shaped r c m -> row < r -> col < c ->
  exists m', cell_body nltk synsets1 synsets2 row col m = OK m'.
Proof.
  intros Ha Hb Hwf Hr Hc. unfold cell_body.
  rewrite (method_path_similarity_some _ _ _ _ Ha Hb). simpl.
  destruct (path_similarity nltk a b) as [q|]; now apply (setitem_ok r c).
Qed.

Lemma filled_next_row (r c row : nat) (m : Np.ndarray) :
  filled nltk synsets1 synsets2 r c row c m <->
  filled nltk synsets1 synsets2 r c (Datatypes.S row) 0 m.
Proof.
  unfold filled. split; intros [Hwf H]; (split; [assumption|]);
    intros i j Hij Hj; apply H; lia.
Qed.

Lemma cell_body_filled (r c row col : nat) (m m' : Np.ndarray) :
  filled nltk synsets1 synsets2 r c row col m ->
  cell_body nltk synsets1 synsets2 row col m = OK m' ->
  filled nltk synsets1 synsets2 r c row (Datatypes.S col) m'.
Proof.
  intros [Hwf Hcells] Hbody.
  destruct (cell_body_spec _ _ _ _ _ _ Hwf Hbody) as (Hwf' & Hnew & Hold).
  split; [assumption|]. intros i j Hij Hj.
  destruct (decide ((i, j) = (row, col))) as [[= -> ->]|Hne];
    [assumption|].
  rewrite (Hold i j Hne). apply Hcells; [|assumption].
  destruct Hij as [?|[-> ?]]; [now left|right].
  split; [reflexivity|]. assert (j <> col) by congruence. lia.
Qed.

Lemma build_matrix_spec (len1 len2 : nat) (m : Np.ndarray) :
  build_matrix nltk synsets1 synsets2 len1 len2 = OK m ->
  well_shaped len1 len2 m /\
  forall i j, i < len1 -> j < len2 ->
              cell m i j = Some (cell_value nltk synsets1 synsets2 i j).
Proof.
  unfold build_matrix. intros Hrun.
  apply (for_range_inv _
           (fun row => filled nltk synsets1 synsets2 len1 len2 row 0))
    in Hrun.
  - destruct Hrun as [Hwf H]. split; [assumption|].
    intros i j Hi Hj. apply H; [now left | assumption].
  - split; [apply zeros_well_shaped|]. intros i j [?|[_ ?]]; lia.
  - intros row t t' Hrow Ht Hinner. apply filled_next_row.
    apply (for_range_inv _ (filled nltk synsets1 synsets2 len1 len2 row)
           _ _ _ Hinner Ht).
    intros col u u' _. apply cell_body_filled.
Qed.

Lemma build_matrix_total (len1 len2 : nat) :
  len1 = length synsets1 -> len2 = length synsets2 ->
  Forall (fun s => s <> None) synsets1 ->
  Forall (fun s => s <> None) synsets2 ->
  exists m, build_matrix nltk synsets1 synsets2 len1 len2 = OK m.
Proof.
  intros -> -> H1 H2. unfold build_matrix.
  set (len1 := length synsets1). set (len2 := length synsets2).
  destruct (for_range_total
              (fun row => Py.for_range len2
                            (cell_body nltk synsets1 synsets2 row))
              (fun _ => well_shaped len1 len2) len1 (Np.zeros len1 len2))
    as (m & Hm & _); [apply zeros_well_shaped| |eauto].
  intros row t Hrow Ht.
  apply (for_range_total _ (fun _ => well_shaped len1 len2));
    [assumption|].
  intros col u Hcol Hu.
  destruct (lookup_lt_is_Some_2 synsets1 row Hrow) as [[a|] Ha].
  2:{ rewrite Forall_lookup in H1. now destruct (H1 row None Ha). }
  destruct (lookup_lt_is_Some_2 synsets2 col Hcol) as [[b|] Hb].
  2:{ rewrite Forall_lookup in H2. now destruct (H2 col None Hb). }
  destruct (cell_body_total len1 len2 row col u a b Ha Hb Hu Hrow Hcol)
    as [u' Hu'].
  exists u'. split; [assumption|].
  now destruct (cell_body_spec _ _ _ _ _ _ Hu Hu') as [? _].
Qed.

End Matrix.

(** ** Maxima along an axis *)

Lemma Qmax_cases (x y : Q) : Qmax x y = x \/ Qmax x y = y.
Proof.
  unfold Qmax, GenericMinMax.gmax. destruct (x ?= y)%Q; auto.
Qed.

Lemma is_max_of_singleton (x : Q) : is_max_of x [x].
Proof.
  split; [now left|]. intros y [<-|[]]. apply Qle_refl.
Qed.

Lemma is_max_of_snoc (a b : Q) (xs : list Q) :
  is_max_of a xs -> is_max_of (Qmax a b) (xs ++ [b]).
Proof.
  intros [Hin Hle]. split.
  - apply in_or_app. destruct (Qmax_cases a b) as [->| ->];
      [now left | right; now left].
  - intros y Hy. apply in_app_or in Hy as [Hy|[<-|[]]].
    + eapply Qle_trans; [now apply Hle | apply Q.le_max_l].
    + apply Q.le_max_r.
Qed.

Lemma fold_max_is_max (xs : list Q) (x : Q) :
  is_max_of (fold_left Qmax xs x) (x :: xs).
Proof.
  change (x :: xs) with ([x] ++ xs).
  generalize (is_max_of_singleton x). generalize [x] as seen.
  revert x. induction xs as [|b xs IH]; intros a seen Hseen; simpl.
  - now rewrite app_nil_r.
  - replace (seen ++ b :: xs) with ((seen ++ [b]) ++ xs)
      by now rewrite <- app_assoc.
    apply IH. now apply is_max_of_snoc.
Qed.

Lemma amax_is_max (xs : list Q) : xs <> [] -> is_max_of (Np.amax xs) xs.
Proof.
  destruct xs as [|x xs]; [congruence|]. intros _. apply fold_max_is_max.
Qed.

Lemma row_maxima (c : nat) (rows : list (list Q)) :
  0 < c -> Forall (fun row => length row = c) rows ->
  Forall2 is_max_of (map Np.amax rows) rows.
Proof.
  intros Hc Hrows. induction Hrows as [|row rows Hrow _ IH]; simpl;
    constructor; [|assumption].
  apply amax_is_max. intros ->. simpl in Hrow. lia.
Qed.

Lemma column_maxima_from (c : nat) (rs seen : list (list Q)) (acc : list Q) :
  length acc = c ->
  Forall (fun row => length row = c) rs ->
  (forall j x, acc !! j = Some x ->
               is_max_of x (map (fun r => nth j r 0%Q) seen)) ->
  length (fold_left (zip_with Qmax) rs acc) = c /\
  forall j x, fold_left (zip_with Qmax) rs acc !! j = Some x ->
              is_max_of x (map (fun r => nth j r 0%Q) (seen ++ rs)).
Proof.
  revert seen acc. induction rs as [|r rs IH]; intros seen acc Hacc Hrs Hmax.
  - simpl. rewrite app_nil_r. now split.
  - apply Forall_cons in Hrs as [Hr Hrs]. simpl.
    replace (seen ++ r :: rs) with ((seen ++ [r]) ++ rs)
      by now rewrite <- app_assoc.
    apply IH; [rewrite length_zip_with; lia | assumption |].
    intros j x Hx. rewrite lookup_zip_with in Hx.
    destruct (acc !! j) as [a|] eqn:Ha; [|discriminate]. simpl in Hx.
    destruct (r !! j) as [b|] eqn:Hb; [|discriminate]. simpl in Hx.
    injection Hx as <-. rewrite map_app. simpl.
    rewrite (nth_lookup r j), Hb. simpl.
    apply is_max_of_snoc. now apply Hmax.
Qed.

Lemma column_maxima (r c : nat) (m : Np.ndarray) (maxima : list Q) :
  well_shaped r c m ->
  Np.max_axis0 m = OK maxima ->
  Forall2 is_max_of maxima (columns m).
Proof.
  intros (Hs & Hlen & Hrows). unfold Np.max_axis0, columns.
  rewrite Hs. simpl. destruct r as [|r]; [discriminate|].
  destruct (Np.data m) as [|r0 rs] eqn:Hdata; [discriminate|].
  intros [= <-]. apply Forall_cons in Hrows as [Hr0 Hrs].
  destruct (column_maxima_from c rs [r0] r0 Hr0 Hrs) as [Hl Hmax].
  { intros j x Hx. simpl. rewrite (nth_lookup r0 j), Hx. simpl.
    apply is_max_of_singleton. }
  apply Forall2_same_length_lookup_2.
  - now rewrite Hl, length_map, length_seq.
  - intros j x col Hx Hcol.
    change (map ?f ?l) with (f <$> l) in Hcol at 1.
    rewrite list_lookup_fmap in Hcol.
    destruct (seq 0 c !! j) as [j'|] eqn:Hj; [|discriminate].
    apply lookup_seq in Hj as [-> _]. simpl in Hcol.
    injection Hcol as <-. now apply Hmax.
Qed.

Lemma max_axis0_total (r c : nat) (m : Np.ndarray) :
  well_shaped r c m -> 0 < r -> exists maxima, Np.max_axis0 m = OK maxima.
Proof.
  intros (Hs & Hlen & _) Hr. unfold Np.max_axis0. rewrite Hs. simpl.
  destruct r as [|r]; [lia|].
  destruct (Np.data m); [discriminate | eauto].
Qed.

(** ** The aggregator *)

Lemma truediv_pos (x : Q) (n : nat) :
  0 < n -> Py.truediv x n = OK (x / inject_Z (Z.of_nat n))%Q.
Proof.
  intros Hn. unfold Py.truediv. destruct (Nat.eqb_spec n 0); [lia|reflexivity].
Qed.

Lemma aggregate_rows (len1 len2 : nat) (m : Np.ndarray) :
  well_shaped len1 len2 m -> len1 < len2 ->
  exists maxima,
    Forall2 is_max_of maxima (Np.data m) /\
    aggregate m len1 len2
    = OK (2 * Py.sum maxima / inject_Z (Z.of_nat (len1 + len2)))%Q.
Proof.
  intros Hshape Hlt. exists (map Np.amax (Np.data m)). split.
  - destruct Hshape as (_ & _ & Hrows). apply (row_maxima len2); [lia|].
    assumption.
  - unfold aggregate. destruct (Nat.ltb_spec len1 len2); [|lia].
    unfold Np.max_axis1. destruct Hshape as (-> & _). simpl.
    destruct len2 as [|len2]; [lia|]. simpl.
    apply truediv_pos. lia.
Qed.

Lemma aggregate_columns (len1 len2 : nat) (m : Np.ndarray) :
  well_shaped len1 len2 m -> len2 <= len1 -> 0 < len1 ->
  exists maxima,
    Forall2 is_max_of maxima (columns m) /\
    aggregate m len1 len2
    = OK (2 * Py.sum maxima / inject_Z (Z.of_nat (len1 + len2)))%Q.
Proof.
  intros Hshape Hle Hpos.
  destruct (max_axis0_total _ _ _ Hshape Hpos) as [maxima Hmax].
  exists maxima. split; [now apply (column_maxima len1 len2)|].
  unfold aggregate. destruct (Nat.ltb_spec len1 len2); [lia|].
  rewrite Hmax. simpl. apply truediv_pos. lia.
Qed.

Lemma aggregate_empty (m : Np.ndarray) :
  well_shaped 0 0 m -> aggregate m 0 0 = Raise ValueError.
Proof.
  intros (Hs & _). unfold aggregate, Np.max_axis0. simpl. now rewrite Hs.
Qed.

(** ** Word sense disambiguation and its call log *)

Section Disambiguation.

Context {Synset : Type} (nltk : NLTK Synset).

Lemma sense_token_run (sent fallback : string) (wp : string * string)
    (log : list LeskCall) :
  sense_token nltk sent fallback wp log
  = (resolved nltk sent fallback wp,
     log ++ token_calls nltk sent fallback wp).
Proof.
  destruct wp as [word p].
  unfold sense_token, resolved, token_calls, call_lesk, primary_call,
    retry_call. simpl.
  destruct (lesk nltk sent word p) as [x|] eqn:Hx; simpl;
    rewrite ?Hx, <- app_assoc; reflexivity.
Qed.

Lemma comprehension_run (sent fallback : string)
    (text : list (string * string)) (log : list LeskCall) :
  Py.comprehension (sense_token nltk sent fallback) text log
  = (map (resolved nltk sent fallback) text,
     log ++ flat_map (token_calls nltk sent fallback) text).
Proof.
  revert log. induction text as [|wp text IH]; intros log.
  - simpl. now rewrite app_nil_r.
  - cbn [Py.comprehension bind Traced_Monad ret].
    rewrite sense_token_run, IH.
    cbn [map flat_map]. now rewrite <- app_assoc.
Qed.

Lemma sensed1_of_run (sent1 : string) :
  sensed1_of nltk sent1
  = (map (resolved nltk (Py.lower sent1) (Py.lower sent1))
         (text_of nltk sent1),
     flat_map (token_calls nltk (Py.lower sent1) (Py.lower sent1))
              (text_of nltk sent1)).
Proof. unfold sensed1_of. now rewrite comprehension_run. Qed.

Lemma sensed2_of_run (sent1 sent2 : string) :
  sensed2_of nltk sent1 sent2
  = (map (resolved nltk (Py.lower sent2) (Py.lower sent1))
         (text_of nltk sent2),
     flat_map (token_calls nltk (Py.lower sent2) (Py.lower sent1))
              (text_of nltk sent2)).
Proof. unfold sensed2_of. now rewrite comprehension_run. Qed.

(** A run of [sentsem] is the two disambiguation passes followed by the
    matrix computation on their results. *)
Lemma sentsem_run (sent1 sent2 : string) :
  sentsem nltk sent1 sent2 []
  = (similarity nltk (fst (sensed1_of nltk sent1))
                     (fst (sensed2_of nltk sent1 sent2)),
     snd (sensed1_of nltk sent1) ++ snd (sensed2_of nltk sent1 sent2)).
Proof.
  rewrite sensed1_of_run, sensed2_of_run.
  unfold sentsem, text_of, tokens_of.
  cbn [bind Traced_Monad ret]. rewrite !comprehension_run. reflexivity.
Qed.

Lemma pos_not_satellite (tag : string) : pos tag <> wn.ADJ_SAT.
Proof.
  unfold pos.
  repeat match goal with |- context [if ?b then _ else _] => destruct b end;
    discriminate.
Qed.

Lemma text_of_category (sent : string) (wp : string * string) :
  In wp (text_of nltk sent) -> snd wp <> wn.ADJ_SAT.
Proof.
  unfold text_of, lemmatize_text, tag_tokens. rewrite map_map.
  intros Hin. apply in_map_iff in Hin as ([w tag] & <- & _). simpl.
  apply pos_not_satellite.
Qed.

End Disambiguation.

(** ** Context, lemma and category of the disambiguation calls *)

Local Open Scope string_scope.

(** C4 as worded does not hold: the context handed to [lesk] is not the
    sentence as given. For ["Dog"] the only token is looked up in the
    context ["dog"]. *)
Lemma original_context_counterexample :
  ~ (forall (sent1 sent2 : string) (wp : string * string),
       In wp (text_of Mini.nltk sent1) ->
       In (primary_call sent1 wp) (sentsem_calls Mini.nltk sent1 sent2)).
Proof.
  intros H. specialize (H "Dog" "Cat" ("dog", "n")).
  assert (Hin : In ("dog", "n") (text_of Mini.nltk "Dog"))
    by (vm_compute; now left).
  apply H in Hin. vm_compute in Hin.
  repeat destruct Hin as [Hin|Hin]; try discriminate Hin; exact Hin.
Qed.

(** C4, amended. For every (lemma, category) pair of either sentence,
    [lesk] is invoked with the lowercased text of that sentence as context
    together with the lemma and the category, and every call of a run has
    the lowercased text of one of the two sentences as context. *)
Theorem lesk_context_is_lowercased {Synset : Type} (nltk : NLTK Synset)
    (sent1 sent2 : string) :
  (forall wp, In wp (text_of nltk sent1) ->
     In (primary_call (Py.lower sent1) wp) (sentsem_calls nltk sent1 sent2)) /\
  (forall wp, In wp (text_of nltk sent2) ->
     In (primary_call (Py.lower sent2) wp) (sentsem_calls nltk sent1 sent2)) /\
  (forall c, In c (sentsem_calls nltk sent1 sent2) ->
     call_context c = Py.lower sent1 \/ call_context c = Py.lower sent2).
Proof.
  unfold sentsem_calls. rewrite sentsem_run, sensed1_of_run, sensed2_of_run.
  cbn [fst snd]. repeat split.
  - intros wp Hwp. apply in_or_app. left. apply in_flat_map.
    exists wp. split; [assumption | now left].
  - intros wp Hwp. apply in_or_app. right. apply in_flat_map.
    exists wp. split; [assumption | now left].
  - intros c Hc.
    apply in_app_or in Hc as [Hc|Hc]; apply in_flat_map in Hc as (wp & _ & Hc);
      unfold token_calls in Hc;
      destruct (lesk nltk _ (fst wp) (snd wp));
      destruct Hc as [<-|[<-|[]]]; simpl; auto.
Qed.

Lemma lesk_context_is_lowercased_witness :
  In ("dog", "n") (text_of Mini.nltk "The Dog") /\
  In (mkCall "the dog" "dog" "n") (sentsem_calls Mini.nltk "The Dog" "a Cat").
Proof.
  assert (Hin : In ("dog", "n") (text_of Mini.nltk "The Dog"))
    by (vm_compute; left; reflexivity).
  split; [exact Hin|].
  exact (proj1 (lesk_context_is_lowercased Mini.nltk "The Dog" "a Cat")
           ("dog", "n") Hin).
Defined.

(** C5 as worded does not hold: the category is not passed to the
    lemmatizer. ["running"] is tagged as a verb, and a lemmatizer that maps
    the verb to ["run"] is still asked for the default category and leaves
    the word as it is. *)
Lemma category_hint_counterexample :
  ~ (forall sent : string,
       text_of Mini.nltk sent
       = map (fun wt => (hinted_lemma Mini.nltk (fst wt) (pos (snd wt)),
                         pos (snd wt)))
             (pos_tag Mini.nltk (tokens_of Mini.nltk sent))).
Proof.
  intros H. specialize (H "running"). vm_compute in H. discriminate H.
Qed.

(** C5, amended. Every token is lemmatized by the call without category
    argument, that is with the lemmatizer's default category ['n'], whatever
    category the tagger gave it; the category is only carried along. *)
Theorem lemmatize_ignores_category {Synset : Type} (nltk : NLTK Synset)
    (sent : string) :
  text_of nltk sent
  = map (fun wt => (lemmatize nltk (fst wt) wn.NOUN, pos (snd wt)))
        (pos_tag nltk (tokens_of nltk sent)).
Proof.
  unfold text_of, lemmatize_text, tag_tokens, lemmatize_default.
  rewrite map_map. apply map_ext. now intros [w tag].
Qed.

(** C6. A (lemma, category) pair whose primary call yields no sense is
    looked up again with the satellite-adjective category, whatever its own
    category; for sentence 2 that retry has the text of sentence 1 as
    context. *)
Theorem satellite_retry {Synset : Type} (nltk : NLTK Synset)
    (sent1 sent2 : string) :
  fst (sensed1_of nltk sent1)
  = map (resolved nltk (Py.lower sent1) (Py.lower sent1))
        (text_of nltk sent1) /\
  fst (sensed2_of nltk sent1 sent2)
  = map (resolved nltk (Py.lower sent2) (Py.lower sent1))
        (text_of nltk sent2) /\
  (forall wp, In wp (text_of nltk sent1) ->
     lesk nltk (Py.lower sent1) (fst wp) (snd wp) = None ->
     In (retry_call (Py.lower sent1) wp) (snd (sensed1_of nltk sent1))) /\
  (forall wp, In wp (text_of nltk sent2) ->
     lesk nltk (Py.lower sent2) (fst wp) (snd wp) = None ->
     In (retry_call (Py.lower sent1) wp)
        (snd (sensed2_of nltk sent1 sent2))) /\
  (forall c, In c (snd (sensed2_of nltk sent1 sent2)) ->
     call_pos c = wn.ADJ_SAT -> call_context c = Py.lower sent1) /\
  sentsem_calls nltk sent1 sent2
  = (snd (sensed1_of nltk sent1) ++ snd (sensed2_of nltk sent1 sent2))%list.
Proof.
  unfold sentsem_calls. rewrite sentsem_run, sensed1_of_run, sensed2_of_run.
  cbn [fst snd]. repeat split.
  - intros wp Hwp Hnone. apply in_flat_map. exists wp.
    split; [assumption|]. unfold token_calls. rewrite Hnone.
    right. now left.
  - intros wp Hwp Hnone. apply in_flat_map. exists wp.
    split; [assumption|]. unfold token_calls. rewrite Hnone.
    right. now left.
  - intros c Hc Hsat. apply in_flat_map in Hc as (wp & Hwp & Hc).
    apply text_of_category in Hwp. unfold token_calls in Hc.
    destruct (lesk nltk _ (fst wp) (snd wp));
      destruct Hc as [<-|[<-|[]]]; simpl in *; congruence.
Qed.

Lemma satellite_retry_witness :
  In ("blue", "a") (text_of Mini.nltk "Blue dog") /\
  lesk Mini.nltk "blue dog" "blue" "a" = None /\
  In (mkCall "cat" "blue" "s") (snd (sensed2_of Mini.nltk "cat" "Blue dog")).
Proof.
  assert (Hin : In ("blue", "a") (text_of Mini.nltk "Blue dog"))
    by (vm_compute; left; reflexivity).
  assert (Hnone : lesk Mini.nltk "blue dog" "blue" "a" = None)
    by reflexivity.
  split; [exact Hin|]. split; [exact Hnone|].
  exact (proj1 (proj2 (proj2 (proj2
           (satellite_retry Mini.nltk "cat" "Blue dog"))))
           ("blue", "a") Hin Hnone).
Defined.

(** ** Null senses and the shape of the matrix *)

(** C1 as worded does not hold: nothing is filtered. For ["xyzzy"], a word
    without any sense, against the empty sentence the matrix has one row,
    while no usable token is left on either side. *)
Lemma null_senses_dropped_counterexample :
  ~ (forall (sent1 sent2 : string) (m : Np.ndarray),
       build_matrix Mini.nltk
         (map snd (fst (sensed1_of Mini.nltk sent1)))
         (map snd (fst (sensed2_of Mini.nltk sent1 sent2)))
         (length (fst (sensed1_of Mini.nltk sent1)))
         (length (fst (sensed2_of Mini.nltk sent1 sent2))) = OK m ->
       Np.shape m
       = (length (usable (fst (sensed1_of Mini.nltk sent1))),
          length (usable (fst (sensed2_of Mini.nltk sent1 sent2))))).
Proof.
  intros H. specialize (H "xyzzy" "" (Np.zeros 1 0) eq_refl).
  vm_compute in H. discriminate H.
Qed.

(** C1, amended. No sensed token is dropped: whenever the matrix is built
    it has one row per sensed token of sentence 1 and one column per sensed
    token of sentence 2, null senses included, and these same two counts
    are the lengths handed to the aggregator. *)
Theorem matrix_has_full_shape {Synset : Type} (nltk : NLTK Synset)
    (sensed1 sensed2 : list (string * option Synset)) (m : Np.ndarray) :
  build_matrix nltk (map snd sensed1) (map snd sensed2)
    (length sensed1) (length sensed2) = OK m ->
  well_shaped (length sensed1) (length sensed2) m /\
  similarity nltk sensed1 sensed2
  = aggregate m (length sensed1) (length sensed2).
Proof.
  intros Hm. split.
  - now apply (build_matrix_spec nltk _ _ _ _ _ Hm).
  - unfold similarity. now rewrite Hm.
Qed.

Lemma matrix_has_full_shape_witness :
  let sensed1 : list (string * option string) := [("xyzzy", None)] in
  let sensed2 : list (string * option string) := [] in
  build_matrix Mini.nltk (map snd sensed1) (map snd sensed2)
    (length sensed1) (length sensed2) = OK (Np.zeros 1 0) /\
  well_shaped 1 0 (Np.zeros 1 0) /\
  similarity Mini.nltk sensed1 sensed2 = aggregate (Np.zeros 1 0) 1 0.
Proof.
  split; [reflexivity|].
  exact (matrix_has_full_shape Mini.nltk [("xyzzy", None)] [] (Np.zeros 1 0)
           eq_refl).
Defined.

(** ** Inputs on which the call raises *)

(** C2, on the code. When both sentences are left without tokens the call
    does not return 0.0: the maximum over the empty matrix raises
    [ValueError]. *)
Theorem empty_input_raises {Synset : Type} (nltk : NLTK Synset)
    (sent1 sent2 : string) :
  pos_tag nltk [] = [] ->
  tokens_of nltk sent1 = [] -> tokens_of nltk sent2 = [] ->
  sentsem_result nltk sent1 sent2 = Raise ValueError.
Proof.
  intros Htag H1 H2. unfold sentsem_result.
  rewrite sentsem_run, sensed1_of_run, sensed2_of_run.
  unfold text_of, tag_tokens. rewrite H1, H2, Htag. reflexivity.
Qed.

Lemma empty_input_raises_witness :
  sentsem_result Mini.nltk "" "" = Raise ValueError /\
  sentsem_result Mini.nltk "the of" "a an" = Raise ValueError.
Proof.
  split.
  - exact (empty_input_raises Mini.nltk "" "" eq_refl eq_refl eq_refl).
  - exact (empty_input_raises Mini.nltk "the of" "a an"
             eq_refl eq_refl eq_refl).
Defined.

(** ** Null senses: the general case *)

Section NullSenses.

Context {Synset : Type} (nltk : NLTK Synset).
Variables synsets1 synsets2 : list (option Synset).

Variables len1 len2 : nat.
Hypothesis Hlen1 : len1 = length synsets1.
Hypothesis Hlen2 : len2 = length synsets2.

Lemma cell_body_cases (row col : nat) (m : Np.ndarray) :
  row < len1 -> col < len2 -> well_shaped len1 len2 m ->
  (exists m', cell_body nltk synsets1 synsets2 row col m = OK m' /\
              well_shaped len1 len2 m') \/
  cell_body nltk synsets1 synsets2 row col m = Raise AttributeError.
Proof.
  intros Hrow Hcol Hwf.
  destruct (lookup_lt_is_Some_2 synsets1 row) as [a Ha]; [lia|].
  destruct (lookup_lt_is_Some_2 synsets2 col) as [b Hb]; [lia|].
  destruct a as [a|], b as [b|];
    try (right; unfold cell_body, method_path_similarity, Py.getitem;
         simpl; rewrite Ha, ?Hb; reflexivity).
  left.
  destruct (cell_body_total nltk _ _ _ _ _ _ _ a b Ha Hb Hwf Hrow Hcol)
    as [m' Hm'].
  exists m'. split; [assumption|].
  now destruct (cell_body_spec nltk _ _ _ _ _ _ _ _ Hwf Hm') as [? _].
Qed.

Lemma cell_body_null (row col : nat) (m : Np.ndarray) :
  row < len1 -> col < len2 ->
  synsets1 !! row = Some None \/ synsets2 !! col = Some None ->
  cell_body nltk synsets1 synsets2 row col m = Raise AttributeError.
Proof.
  intros Hrow Hcol Hnull.
  destruct (lookup_lt_is_Some_2 synsets1 row) as [a Ha]; [lia|].
  destruct (lookup_lt_is_Some_2 synsets2 col) as [b Hb]; [lia|].
  unfold cell_body, method_path_similarity, Py.getitem. simpl.
  rewrite Ha. destruct a as [a|]; [|reflexivity].
  rewrite Hb. destruct b as [b|]; [|reflexivity].
  destruct Hnull; congruence.
Qed.

Lemma row_cases (row : nat) (m : Np.ndarray) :
  row < len1 -> well_shaped len1 len2 m ->
  (exists m', Py.for_range len2 (cell_body nltk synsets1 synsets2 row) m
              = OK m' /\ well_shaped len1 len2 m') \/
  Py.for_range len2 (cell_body nltk synsets1 synsets2 row) m
  = Raise AttributeError.
Proof.
  intros Hrow Hwf. unfold Py.for_range.
  assert (Hgen : forall l, (forall col, In col l -> col < len2) ->
            forall t, well_shaped len1 len2 t ->
            (exists t', Py.for_each l (cell_body nltk synsets1 synsets2 row) t
                        = OK t' /\ well_shaped len1 len2 t') \/
            Py.for_each l (cell_body nltk synsets1 synsets2 row) t
            = Raise AttributeError).
  { induction l as [|col l IH]; intros Hl t Ht; simpl; [left; eauto|].
    destruct (cell_body_cases row col t Hrow (Hl col (or_introl eq_refl)) Ht)
      as [(t' & -> & Ht')| ->]; [|now right].
    apply IH; [|assumption]. intros c Hc. apply Hl. now right. }
  apply Hgen; [|assumption]. intros col Hcol. apply in_seq in Hcol. lia.
Qed.

Lemma row_null (row col : nat) (m : Np.ndarray) :
  row < len1 -> col < len2 -> well_shaped len1 len2 m ->
  synsets1 !! row = Some None \/ synsets2 !! col = Some None ->
  Py.for_range len2 (cell_body nltk synsets1 synsets2 row) m
  = Raise AttributeError.
Proof.
  intros Hrow Hcol Hwf Hnull. unfold Py.for_range.
  assert (Hgen : forall l, (forall c, In c l -> c < len2) -> In col l ->
            forall t, well_shaped len1 len2 t ->
            Py.for_each l (cell_body nltk synsets1 synsets2 row) t
            = Raise AttributeError).
  { induction l as [|c l IH]; intros Hl Hin t Ht; [destruct Hin|]. simpl.
    destruct Hin as [->|Hin].
    - now rewrite (cell_body_null row col t Hrow Hcol Hnull).
    - destruct (cell_body_cases row c t Hrow (Hl c (or_introl eq_refl)) Ht)
        as [(t' & -> & Ht')| ->]; [|reflexivity].
      apply IH; [|assumption|assumption]. intros c' Hc'. apply Hl. now right. }
  apply Hgen; [| |assumption].
  - intros c Hc. apply in_seq in Hc. lia.
  - apply in_seq. lia.
Qed.

(** A null sense on either side, with both sides non-empty, makes the
    matrix construction raise. *)
Lemma build_matrix_null :
  0 < len1 -> 0 < len2 ->
  In None synsets1 \/ In None synsets2 ->
  build_matrix nltk synsets1 synsets2 len1 len2 = Raise AttributeError.
Proof.
  intros H1 H2 Hnull. unfold build_matrix, Py.for_range.
  assert (Hrow : exists row col, row < len1 /\ col < len2 /\
            (synsets1 !! row = Some None \/ synsets2 !! col = Some None)).
  { destruct Hnull as [Hin|Hin];
      apply list_elem_of_In, list_elem_of_lookup_1 in Hin as [k Hk];
      apply lookup_lt_Some in Hk as Hlt.
    - exists k, 0. repeat split; [lia | lia | now left].
    - exists 0, k. repeat split; [lia | lia | now right]. }
  destruct Hrow as (row & col & Hr & Hc & Hn).
  assert (Hgen : forall l, (forall r, In r l -> r < len1) -> In row l ->
            forall t, well_shaped len1 len2 t ->
            Py.for_each l
              (fun r => Py.for_range len2 (cell_body nltk synsets1 synsets2 r))
              t = Raise AttributeError).
  { induction l as [|r l IH]; intros Hl Hin t Ht; [destruct Hin|]. simpl.
    destruct Hin as [->|Hin].
    - now rewrite (row_null row col t Hr Hc Ht Hn).
    - destruct (row_cases r t (Hl r (or_introl eq_refl)) Ht)
        as [(t' & -> & Ht')| ->]; [|reflexivity].
      apply IH; [|assumption|assumption]. intros r' Hr'. apply Hl. now right. }
  apply Hgen; [| |apply zeros_well_shaped].
  - intros r Hrr. apply in_seq in Hrr. lia.
  - apply in_seq. lia.
Qed.

End NullSenses.

(** C3, on the code. Matrix construction has an error condition: with
    tokens on both sides, a null sense on either side raises
    [AttributeError] when its cell is reached instead of contributing 0;
    in particular no score 0 is returned for an all-null side. *)
Theorem null_sense_raises {Synset : Type} (nltk : NLTK Synset)
    (sent1 sent2 : string) :
  fst (sensed1_of nltk sent1) <> [] ->
  fst (sensed2_of nltk sent1 sent2) <> [] ->
  In None (map snd (fst (sensed1_of nltk sent1))) \/
  In None (map snd (fst (sensed2_of nltk sent1 sent2))) ->
  sentsem_result nltk sent1 sent2 = Raise AttributeError.
Proof.
  intros H1 H2 Hnull. unfold sentsem_result. rewrite sentsem_run. cbn [fst].
  unfold similarity. rewrite build_matrix_null; try assumption.
  - reflexivity.
  - now rewrite length_map.
  - now rewrite length_map.
  - destruct (fst (sensed1_of nltk sent1)); [congruence | simpl; lia].
  - destruct (fst (sensed2_of nltk sent1 sent2)); [congruence | simpl; lia].
Qed.

Lemma null_sense_raises_witness :
  fst (sensed1_of Mini.nltk "xyzzy") = [("xyzzy", None)]%string /\
  fst (sensed2_of Mini.nltk "xyzzy" "dog")
  = [("dog", Some "dog.n.01")]%string /\
  sentsem_result Mini.nltk "xyzzy" "dog" = Raise AttributeError.
Proof.
  split; [reflexivity|]. split; [reflexivity|].
  apply (null_sense_raises Mini.nltk "xyzzy" "dog");
    [discriminate | discriminate | left; left; reflexivity].
Defined.

(** ** Cells, rows and columns of the built matrix *)

Local Open Scope list_scope.


Lemma row_cell (r c : nat) (m : Np.ndarray) (i j : nat) (row : list Q)
    (x : Q) :
  well_shaped r c m -> Np.data m !! i = Some row -> row !! j = Some x ->
  i < r /\ j < c /\ cell m i j = Some x.
Proof.
  intros (_ & Hlen & Hrows) Hrow Hx.
  rewrite Forall_lookup in Hrows. specialize (Hrows i row Hrow).
  apply lookup_lt_Some in Hrow as Hi. apply lookup_lt_Some in Hx as Hj.
  unfold cell. rewrite Hrow. repeat split; [lia | lia | assumption].
Qed.

Lemma column_cell (r c : nat) (m : Np.ndarray) (j : nat) (col : list Q) :
  well_shaped r c m -> columns m !! j = Some col ->
  j < c /\ length col = r /\ forall i, i < r -> col !! i = cell m i j.
Proof.
  intros (Hs & Hlen & Hrows) Hcol. unfold columns in Hcol.
  rewrite Hs in Hcol. simpl in Hcol.
  change (map ?f ?l) with (f <$> l) in Hcol at 1.
  rewrite list_lookup_fmap in Hcol.
  destruct (seq 0 c !! j) as [j'|] eqn:Hj; [|discriminate].
  apply lookup_seq in Hj as [-> Hj]. simpl in Hcol. injection Hcol as <-.
  split; [assumption|]. split; [now rewrite length_map|].
  intros i Hi. unfold cell.
  change (map ?f ?l) with (f <$> l). rewrite list_lookup_fmap.
  destruct (lookup_lt_is_Some_2 (Np.data m) i) as [row Hrow]; [lia|].
  rewrite Hrow. simpl. rewrite Forall_lookup in Hrows.
  specialize (Hrows i row Hrow).
  destruct (lookup_lt_is_Some_2 row j) as [x Hx]; [lia|].
  now rewrite (nth_lookup row j), Hx.
Qed.

Section BuiltMatrix.

Context {Synset : Type} (nltk : NLTK Synset).
Variables (synsets1 synsets2 : list (option Synset)) (len1 len2 : nat).
Variable m : Np.ndarray.
Hypothesis Hbuilt : build_matrix nltk synsets1 synsets2 len1 len2 = OK m.



End BuiltMatrix.

(** ** Sums of maxima *)








(** ** The score *)



(** ** The miniature lexicon meets the assumptions *)

Lemma mini_tagger_aligned : tagger_aligned Mini.nltk.
Proof.
  intros tokens. simpl. unfold Mini.tagger. rewrite map_map. simpl.
  apply map_id.
Qed.

Lemma mini_similarity_in_unit : similarity_in_unit Mini.nltk.
Proof.
  intros a b q. simpl. unfold Mini.path.
  repeat match goal with
         | |- context [if ?b then _ else _] => destruct b
         end; intros [= <-]; split; discriminate.
Qed.


(** C8, on the code. With every path similarity in the unit interval, the
    call on two empty sentences still yields no score in that interval: it
    raises. *)
Theorem bounds_fail_on_empty_input :
  similarity_in_unit Mini.nltk /\
  sentsem_result Mini.nltk "" "" = Raise ValueError /\
  ~ (exists v, sentsem_result Mini.nltk "" "" = OK v /\ in_unit v).
Proof.
  split; [exact mini_similarity_in_unit|].
  split; [reflexivity|]. intros (v & Hv & _). discriminate Hv.
Qed.

(** ** A sentence against itself *)





(** ** Counting tokens *)

Lemma count_occ_filter (f : string -> bool) (l : list string) (w : string) :
  f w = true ->
  count_occ string_dec (List.filter f l) w = count_occ string_dec l w.
Proof.
  intros Hw. induction l as [|x l IH]; [reflexivity|]. simpl.
  destruct (string_dec x w) as [->|Hne].
  - rewrite Hw. simpl. destruct (string_dec w w); [|congruence].
    now rewrite IH.
  - destruct (f x); [|assumption]. simpl.
    destruct (string_dec x w); [congruence | assumption].
Qed.

Lemma text_of_length {Synset : Type} (nltk : NLTK Synset) (sent : string) :
  tagger_aligned nltk ->
  length (text_of nltk sent) = length (tokens_of nltk sent).
Proof.
  intros Htag. unfold text_of, lemmatize_text, tag_tokens.
  rewrite !length_map. rewrite <- (Htag (tokens_of nltk sent)) at 2.
  now rewrite length_map.
Qed.

(** ** When a score is returned *)

(** With every token resolved on both sides and at least one token on one
    side, the call returns a score. *)
Lemma similarity_returns {Synset : Type} (nltk : NLTK Synset)
    (sensed1 sensed2 : list (string * option Synset)) :
  all_sensed sensed1 -> all_sensed sensed2 ->
  0 < length sensed1 + length sensed2 ->
  exists v, similarity nltk sensed1 sensed2 = OK v.
Proof.
  intros H1 H2 Hlen.
  assert (Hsome : forall sensed : list (string * option Synset),
             all_sensed sensed -> Forall (fun s => s <> None) (map snd sensed)).
  { intros sensed Hall. apply List.Forall_forall. intros s Hs.
    apply in_map_iff in Hs as (ws & <- & Hws).
    unfold all_sensed in Hall. rewrite List.Forall_forall in Hall.
    now apply Hall. }
  destruct (build_matrix_total nltk (map snd sensed1) (map snd sensed2)
              (length sensed1) (length sensed2)) as [m Hm];
    [now rewrite length_map | now rewrite length_map | auto | auto |].
  destruct (build_matrix_spec nltk _ _ _ _ _ Hm) as [Hwf _].
  unfold similarity. rewrite Hm. cbn [bind Result_Monad].
  destruct (Nat.lt_ge_cases (length sensed1) (length sensed2)) as [Hlt|Hge].
  - destruct (aggregate_rows _ _ _ Hwf Hlt) as (maxima & _ & ->). eauto.
  - destruct (aggregate_columns _ _ _ Hwf Hge) as (maxima & _ & ->);
      [lia | eauto].
Qed.

(** A sentence without tokens against one with tokens scores 0, whatever
    the senses of the latter. *)
Lemma similarity_one_side_empty {Synset : Type} (nltk : NLTK Synset)
    (sensed : list (string * option Synset)) :
  sensed <> [] ->
  (exists v, similarity nltk [] sensed = OK v /\ (v == 0)%Q) /\
  (exists v, similarity nltk sensed [] = OK v /\ (v == 0)%Q).
Proof.
  intros Hne. destruct sensed as [|ws sensed]; [congruence|]. split.
  - eexists. split; [reflexivity|]. reflexivity.
  - unfold similarity, build_matrix, Py.for_range.
    cbn [length map]. generalize (length sensed) as n. intros n.
    assert (Hloop : forall k lo m,
               Py.for_each (seq lo k)
                 (fun row => Py.for_each (seq 0 0)
                    (cell_body nltk (map snd (ws :: sensed)) [] row)) m
               = OK m).
    { induction k as [|k IH]; intros lo m; [reflexivity|]. simpl.
      apply IH. }
    cbn [map] in Hloop. rewrite Hloop. cbn [bind Result_Monad].
    unfold aggregate, Np.max_axis0. simpl.
    eexists. split; [reflexivity|].
    assert (Hnil : forall xs : list (list Q),
               fold_left (zip_with Qmax) xs [] = []).
    { induction xs as [|x xs IH]; [reflexivity | exact IH]. }
    rewrite Hnil. reflexivity.
Qed.

(** ** Runs on the miniature lexicon *)

Example pos_tags :
  map pos ["NN"; "NNS"; "MD"; "JJR"; "VBD"; "RB"; "RP"; "IN"; ""]
  = ["n"; "n"; "n"; "a"; "v"; "r"; ""; ""; ""]%string.
Proof. reflexivity. Qed.

Example tokenize_punctuation :
  Re.tokenize (Py.lower "A cat_1 sat -- on the MAT!")
  = ["a"; "cat_1"; "sat"; "on"; "the"; "mat"]%string.
Proof. reflexivity. Qed.

Example text_of_sentence :
  text_of Mini.nltk "The dogs are Running fast"
  = [("dog", "n"); ("are", "n"); ("running", "v"); ("fast", "r")]%string.
Proof. reflexivity. Qed.

(** Two resolved nouns against one: the column branch, with the single
    column maximum 1. *)
Example sentsem_dog_cat :
  sentsem_result Mini.nltk "The dog, the cat" "a dog"
  = OK (2 * (0 + 1) / inject_Z 3)%Q.
Proof. reflexivity. Qed.

(** A repeated token: two rows, three columns, the row branch. *)
Example sentsem_repeated :
  sentsem_result Mini.nltk "dog dog" "dog cat dog"
  = OK (2 * (0 + 1 + 1) / inject_Z 5)%Q.
Proof. reflexivity. Qed.

(** The retry for the second sentence is made in the context of the
    first. *)
Example sentsem_retry_calls :
  sentsem_calls Mini.nltk "Cat" "Blue dog"
  = [mkCall "cat" "cat" "n"; mkCall "cat" "cat" "n";
     mkCall "blue dog" "blue" "a"; mkCall "cat" "blue" "s";
     mkCall "blue dog" "dog" "n"; mkCall "blue dog" "dog" "n"]%string.
Proof. reflexivity. Qed.

(** All stopwords against a sentence with tokens. *)
Example sentsem_stopwords_only :
  sentsem_result Mini.nltk "the of" "a dog" = OK (2 * 0 / inject_Z 1)%Q.
Proof. reflexivity. Qed.

(** * Further properties of the code *)

(** ** [pos] *)

Lemma prefix_first (a : ascii) (s tag : string) :
  String.prefix (String a s) tag = true -> exists t, tag = String a t.
Proof.
  destruct tag as [|c t]; simpl; [discriminate|].
  destruct (ascii_dec a c) as [->|Hne]; [eauto | discriminate].
Qed.

Lemma prefix_distinct (a b : ascii) (s1 s2 tag : string) :
  a <> b ->
  String.prefix (String a s1) tag = true ->
  String.prefix (String b s2) tag = false.
Proof.
  intros Hne H. apply prefix_first in H as [t ->].
  destruct (String.prefix (String b s2) (String a t)) eqn:E; [|reflexivity].
  apply prefix_first in E as [t' [= E _]]. congruence.
Qed.

(** X1. [pos] sorts a tag by its first letters and the tests do not
    overlap: noun exactly for tags starting with N and for MD, adjective
    for J, verb for V, adverb for RB, the empty category for everything
    else; the satellite-adjective category is never produced. *)
Theorem pos_spec (tag : string) :
  (pos tag = wn.NOUN <->
   String.prefix "N" tag = true \/ tag = "MD"%string) /\
  (pos tag = wn.ADJ <-> String.prefix "J" tag = true) /\
  (pos tag = wn.VERB <-> String.prefix "V" tag = true) /\
  (pos tag = wn.ADV <-> String.prefix "RB" tag = true) /\
  (pos tag = EmptyString <->
   String.prefix "N" tag = false /\ tag <> "MD"%string /\
   String.prefix "J" tag = false /\ String.prefix "V" tag = false /\
   String.prefix "RB" tag = false) /\
  pos tag <> wn.ADJ_SAT.
Proof.
  destruct (String.eqb_spec tag "MD") as [->|HMD];
    [vm_compute; intuition (try discriminate; try congruence)|].
  assert (HNJ := prefix_distinct "N" "J" "" "" tag ltac:(discriminate)).
  assert (HNV := prefix_distinct "N" "V" "" "" tag ltac:(discriminate)).
  assert (HNR := prefix_distinct "N" "R" "" "B" tag ltac:(discriminate)).
  assert (HJV := prefix_distinct "J" "V" "" "" tag ltac:(discriminate)).
  assert (HJR := prefix_distinct "J" "R" "" "B" tag ltac:(discriminate)).
  assert (HVR := prefix_distinct "V" "R" "" "B" tag ltac:(discriminate)).
  unfold pos. destruct (String.eqb_spec tag "MD") as [|_]; [contradiction|].
  destruct (String.prefix "N" tag), (String.prefix "J" tag),
    (String.prefix "V" tag), (String.prefix "RB" tag); simpl;
    repeat match goal with
           | H : true = true -> _ |- _ => specialize (H eq_refl)
           end;
    try discriminate;
    unfold wn.NOUN, wn.ADJ, wn.VERB, wn.ADV, wn.ADJ_SAT;
    intuition (try discriminate; try congruence).
Qed.

(** ** Lowercasing and tokenization *)

Lemma lower_char_idempotent (c : ascii) :
  Py.lower_char (Py.lower_char c) = Py.lower_char c.
Proof. destruct c as [[] [] [] [] [] [] [] []]; reflexivity. Qed.

Lemma lower_idempotent (s : string) : Py.lower (Py.lower s) = Py.lower s.
Proof.
  induction s as [|c s IH]; [reflexivity|]. simpl.
  now rewrite lower_char_idempotent, IH.
Qed.

Lemma lower_char_not_upper (c : ascii) :
  Py.in_range 65 90 (Py.lower_char c) = false.
Proof. destruct c as [[] [] [] [] [] [] [] []]; reflexivity. Qed.

Lemma lower_has_no_upper (s : string) :
  all_chars (fun c => negb (Py.in_range 65 90 c)) (Py.lower s) = true.
Proof.
  induction s as [|c s IH]; [reflexivity|]. simpl.
  now rewrite lower_char_not_upper, IH.
Qed.

(** X2. The call is insensitive to case: two pairs of sentences with the
    same lowercased forms give the same result and the same [lesk] calls,
    and lowercasing the arguments beforehand changes nothing. *)
Theorem sentsem_case_insensitive {Synset : Type} (nltk : NLTK Synset)
    (sent1 sent2 : string) :
  sentsem nltk (Py.lower sent1) (Py.lower sent2) []
  = sentsem nltk sent1 sent2 [] /\
  forall other1 other2 : string,
    Py.lower other1 = Py.lower sent1 -> Py.lower other2 = Py.lower sent2 ->
    sentsem nltk other1 other2 [] = sentsem nltk sent1 sent2 [].
Proof.
  split.
  - unfold sentsem. now rewrite !lower_idempotent.
  - intros other1 other2 H1 H2. unfold sentsem. now rewrite H1, H2.
Qed.

Lemma sentsem_case_insensitive_witness :
  Py.lower "THE dog" = Py.lower "The Dog" /\
  Py.lower "a CAT" = Py.lower "A cat" /\
  sentsem Mini.nltk "THE dog" "a CAT" []
  = sentsem Mini.nltk "The Dog" "A cat" [].
Proof.
  split; [reflexivity|]. split; [reflexivity|].
  exact (proj2 (sentsem_case_insensitive Mini.nltk "The Dog" "A cat")
           "THE dog" "a CAT" eq_refl eq_refl).
Defined.

Lemma all_chars_snoc (p : ascii -> bool) (s : string) (c : ascii) :
  all_chars p (String.append s (String c EmptyString))
  = all_chars p s && p c.
Proof.
  induction s as [|d s IH]; simpl.
  - now rewrite andb_true_r.
  - now rewrite IH, andb_assoc.
Qed.

Lemma findall_from_tokens (q : ascii -> bool) (s cur : string) :
  all_chars q s = true ->
  all_chars (fun c => Re.is_word_char c && q c) cur = true ->
  forall w, In w (Re.findall_from cur s) ->
    w <> EmptyString /\
    all_chars (fun c => Re.is_word_char c && q c) w = true.
Proof.
  revert cur. induction s as [|c s IH]; intros cur Hs Hcur w Hw.
  - simpl in Hw. destruct cur; [destruct Hw|].
    destruct Hw as [<-|[]]. split; [discriminate | assumption].
  - simpl in Hs. apply andb_true_iff in Hs as [Hc Hs]. simpl in Hw.
    destruct (Re.is_word_char c) eqn:Hword.
    + apply (IH _ Hs) in Hw; [assumption|].
      now rewrite all_chars_snoc, Hcur, Hword, Hc.
    + apply in_app_or in Hw as [Hw|Hw].
      * destruct cur; [destruct Hw|].
        destruct Hw as [<-|[]]. split; [discriminate | assumption].
      * now apply (IH EmptyString Hs).
Qed.

(** X3. For an ASCII sentence, every token that reaches the tagger is a
    non-empty run of digits, lowercase ASCII letters and underscores, and
    is not a stopword. *)
Theorem tokens_are_lowercase_words {Synset : Type} (nltk : NLTK Synset)
    (sent w : string) :
  all_chars is_ascii sent = true ->
  In w (tokens_of nltk sent) ->
  w <> EmptyString /\
  all_chars is_lower_word_char w = true /\
  Py.contains (stopwords nltk) w = false.
Proof.
  unfold tokens_of, remove_stopwords. intros _ Hw.
  apply filter_In in Hw as [Hw Hstop].
  apply negb_true_iff in Hstop.
  destruct (findall_from_tokens (fun c => negb (Py.in_range 65 90 c))
              (Py.lower sent) EmptyString (lower_has_no_upper sent) eq_refl
              w Hw) as [Hne Hall].
  auto.
Qed.

Lemma tokens_are_lowercase_words_witness :
  all_chars is_ascii "The CAT_1 sat!" = true /\
  In "cat_1"%string (tokens_of Mini.nltk "The CAT_1 sat!") /\
  "cat_1"%string <> EmptyString /\
  all_chars is_lower_word_char "cat_1" = true /\
  Py.contains (stopwords Mini.nltk) "cat_1" = false.
Proof.
  assert (Hin : In "cat_1"%string (tokens_of Mini.nltk "The CAT_1 sat!"))
    by (vm_compute; left; reflexivity).
  split; [reflexivity|]. split; [exact Hin|].
  exact (tokens_are_lowercase_words Mini.nltk "The CAT_1 sat!" "cat_1"
           eq_refl Hin).
Defined.

Lemma findall_from_separator (s t cur : string) (sep : ascii) :
  Re.is_word_char sep = false ->
  Re.findall_from cur (String.append s (String sep t))
  = Re.findall_from cur s ++ Re.findall_from EmptyString t.
Proof.
  intros Hsep. revert cur. induction s as [|c s IH]; intros cur; simpl.
  - now rewrite Hsep.
  - destruct (Re.is_word_char c); [apply IH|].
    now rewrite IH, app_assoc.
Qed.

Lemma lower_append (s t : string) :
  Py.lower (String.append s t) = String.append (Py.lower s) (Py.lower t).
Proof.
  induction s as [|c s IH]; [reflexivity|]. simpl. now rewrite IH.
Qed.

Lemma lower_char_non_word (c : ascii) :
  Re.is_word_char c = false -> Py.lower_char c = c.
Proof.
  destruct c as [[] [] [] [] [] [] [] []]; intros H;
    first [reflexivity | discriminate H].
Qed.

(** X4. On ASCII text, a character that is not a letter, a digit or an
    underscore separates tokens: the tokens of two texts joined by such a
    character are the tokens of the first followed by the tokens of the
    second. *)
Theorem tokens_of_separator {Synset : Type} (nltk : NLTK Synset)
    (s t : string) (sep : ascii) :
  all_chars is_ascii s = true -> all_chars is_ascii t = true ->
  is_ascii sep = true -> Re.is_word_char sep = false ->
  tokens_of nltk (String.append s (String sep t))
  = tokens_of nltk s ++ tokens_of nltk t.
Proof.
  intros _ _ _ Hsep. unfold tokens_of, remove_stopwords, Re.tokenize.
  rewrite lower_append. cbn [Py.lower].
  rewrite (lower_char_non_word sep Hsep).
  rewrite (findall_from_separator _ _ _ _ Hsep). apply List.filter_app.
Qed.

Lemma tokens_of_separator_witness :
  all_chars is_ascii "The dog" = true /\
  all_chars is_ascii " a Cat" = true /\
  is_ascii "," = true /\ Re.is_word_char "," = false /\
  tokens_of Mini.nltk (String.append "The dog" (String "," " a Cat"))
  = tokens_of Mini.nltk "The dog" ++ tokens_of Mini.nltk " a Cat".
Proof.
  repeat (split; [reflexivity|]).
  exact (tokens_of_separator Mini.nltk "The dog" " a Cat" ","
           eq_refl eq_refl eq_refl eq_refl).
Defined.

(** ** Sensed tokens and calls per token *)

Lemma sensed1_length {Synset : Type} (nltk : NLTK Synset) (sent1 : string) :
  tagger_aligned nltk ->
  length (fst (sensed1_of nltk sent1)) = length (tokens_of nltk sent1).
Proof.
  intros Htag. rewrite sensed1_of_run. cbn [fst].
  now rewrite length_map, text_of_length.
Qed.

Lemma sensed2_length {Synset : Type} (nltk : NLTK Synset)
    (sent1 sent2 : string) :
  tagger_aligned nltk ->
  length (fst (sensed2_of nltk sent1 sent2)) = length (tokens_of nltk sent2).
Proof.
  intros Htag. rewrite sensed2_of_run. cbn [fst].
  now rewrite length_map, text_of_length.
Qed.

Lemma token_calls_length {Synset : Type} (nltk : NLTK Synset)
    (sent fallback : string) (text : list (string * string)) :
  length (flat_map (token_calls nltk sent fallback) text) = 2 * length text.
Proof.
  induction text as [|wp text IH]; [reflexivity|].
  cbn [flat_map]. rewrite length_app, IH. simpl. lia.
Qed.

(** X5. [lesk] is called exactly twice for every token of either sentence:
    once to test for a sense and once more, either to fetch that sense
    again or to retry with the satellite-adjective category. *)
Theorem two_lesk_calls_per_token {Synset : Type} (nltk : NLTK Synset)
    (sent1 sent2 : string) :
  tagger_aligned nltk ->
  length (sentsem_calls nltk sent1 sent2)
  = 2 * (length (tokens_of nltk sent1) + length (tokens_of nltk sent2)).
Proof.
  intros Htag. unfold sentsem_calls.
  rewrite sentsem_run, sensed1_of_run, sensed2_of_run. cbn [fst snd].
  rewrite length_app, !token_calls_length, !text_of_length by assumption.
  lia.
Qed.

Lemma two_lesk_calls_per_token_witness :
  tagger_aligned Mini.nltk /\
  length (sentsem_calls Mini.nltk "The dog sat" "a blue cat")
  = 2 * (length (tokens_of Mini.nltk "The dog sat")
         + length (tokens_of Mini.nltk "a blue cat")).
Proof.
  split; [exact mini_tagger_aligned|].
  exact (two_lesk_calls_per_token Mini.nltk "The dog sat" "a blue cat"
           mini_tagger_aligned).
Defined.

(** ** Which calls return and which raise *)

Lemma null_or_sensed {Synset : Type}
    (sensed : list (string * option Synset)) :
  all_sensed sensed \/ In None (map snd sensed).
Proof.
  induction sensed as [|[w [x|]] sensed IH].
  - left. constructor.
  - destruct IH as [IH|IH]; [left | right; now right].
    constructor; [discriminate | assumption].
  - right. now left.
Qed.

Lemma all_sensed_no_null {Synset : Type}
    (sensed : list (string * option Synset)) :
  all_sensed sensed -> ~ In None (map snd sensed).
Proof.
  intros Hall Hin. apply in_map_iff in Hin as (ws & Hnone & Hws).
  unfold all_sensed in Hall. rewrite List.Forall_forall in Hall.
  now apply (Hall ws Hws).
Qed.

Lemma similarity_null {Synset : Type} (nltk : NLTK Synset)
    (sensed1 sensed2 : list (string * option Synset)) :
  sensed1 <> [] -> sensed2 <> [] ->
  In None (map snd sensed1) \/ In None (map snd sensed2) ->
  similarity nltk sensed1 sensed2 = Raise AttributeError.
Proof.
  intros H1 H2 Hnull. unfold similarity.
  rewrite build_matrix_null; try assumption.
  - reflexivity.
  - now rewrite length_map.
  - now rewrite length_map.
  - destruct sensed1; [congruence | simpl; lia].
  - destruct sensed2; [congruence | simpl; lia].
Qed.

(** The four kinds of runs of the matrix computation. *)
Lemma similarity_cases {Synset : Type} (nltk : NLTK Synset)
    (sensed1 sensed2 : list (string * option Synset)) :
  (sensed1 = [] /\ sensed2 = [] /\
   similarity nltk sensed1 sensed2 = Raise ValueError) \/
  ((sensed1 = [] /\ sensed2 <> [] \/ sensed1 <> [] /\ sensed2 = []) /\
   exists v, similarity nltk sensed1 sensed2 = OK v /\ (v == 0)%Q) \/
  (sensed1 <> [] /\ sensed2 <> [] /\
   (In None (map snd sensed1) \/ In None (map snd sensed2)) /\
   similarity nltk sensed1 sensed2 = Raise AttributeError) \/
  (sensed1 <> [] /\ sensed2 <> [] /\
   all_sensed sensed1 /\ all_sensed sensed2 /\
   exists v, similarity nltk sensed1 sensed2 = OK v).
Proof.
  destruct sensed1 as [|ws1 sensed1], sensed2 as [|ws2 sensed2].
  - left. repeat split.
  - right. left. split; [left; split; [reflexivity | discriminate]|].
    apply (similarity_one_side_empty nltk (ws2 :: sensed2)). discriminate.
  - right. left. split; [right; split; [discriminate | reflexivity]|].
    apply (similarity_one_side_empty nltk (ws1 :: sensed1)). discriminate.
  - right. right.
    destruct (null_or_sensed (ws1 :: sensed1)) as [Hall1|Hnull1].
    + destruct (null_or_sensed (ws2 :: sensed2)) as [Hall2|Hnull2].
      * right. repeat split; try discriminate; try assumption.
        apply similarity_returns; try assumption. simpl. lia.
      * left. repeat split; try discriminate; [now right|].
        apply similarity_null; try discriminate. now right.
    + left. repeat split; try discriminate; [now left|].
      apply similarity_null; try discriminate. now left.
Qed.

(** X6. The only exceptions a call can raise are [ValueError], exactly when
    neither sentence has a token left, and [AttributeError], exactly when
    both have tokens and some token has no sense; the division by
    [len1 + len2] never fails and no index is ever out of range. *)
Theorem sentsem_exceptions {Synset : Type} (nltk : NLTK Synset)
    (sent1 sent2 : string) (e : exn) :
  sentsem_result nltk sent1 sent2 = Raise e <->
  (e = ValueError /\
   fst (sensed1_of nltk sent1) = [] /\
   fst (sensed2_of nltk sent1 sent2) = []) \/
  (e = AttributeError /\
   fst (sensed1_of nltk sent1) <> [] /\
   fst (sensed2_of nltk sent1 sent2) <> [] /\
   (In None (map snd (fst (sensed1_of nltk sent1))) \/
    In None (map snd (fst (sensed2_of nltk sent1 sent2))))).
Proof.
  unfold sentsem_result. rewrite sentsem_run. cbn [fst].
  destruct (similarity_cases nltk (fst (sensed1_of nltk sent1))
              (fst (sensed2_of nltk sent1 sent2)))
    as [(H1 & H2 & Hs)|[(Hone & v & Hs & _)|[(H1 & H2 & Hnull & Hs)
       |(H1 & H2 & Hall1 & Hall2 & v & Hs)]]]; rewrite Hs; split.
  - intros [= <-]. left. auto.
  - intros [(-> & _)|(_ & Hne & _)]; [reflexivity | congruence].
  - discriminate.
  - intros [(_ & E1 & E2)|(_ & N1 & N2 & _)];
      destruct Hone as [[? ?]|[? ?]]; congruence.
  - intros [= <-]. right. auto.
  - intros [(_ & E1 & _)|(-> & _)]; [congruence | reflexivity].
  - discriminate.
  - intros [(_ & E1 & _)|(_ & _ & _ & [Hn|Hn])];
      [congruence
      | destruct (all_sensed_no_null _ Hall1 Hn)
      | destruct (all_sensed_no_null _ Hall2 Hn)].
Qed.

(** X7. A score is returned exactly when one sentence has no token and the
    other has some, or when both have tokens and every token has a
    sense. *)
Theorem sentsem_returns_iff {Synset : Type} (nltk : NLTK Synset)
    (sent1 sent2 : string) :
  (exists v, sentsem_result nltk sent1 sent2 = OK v) <->
  (fst (sensed1_of nltk sent1) = [] /\
   fst (sensed2_of nltk sent1 sent2) <> []) \/
  (fst (sensed1_of nltk sent1) <> [] /\
   fst (sensed2_of nltk sent1 sent2) = []) \/
  (fst (sensed1_of nltk sent1) <> [] /\
   fst (sensed2_of nltk sent1 sent2) <> [] /\
   all_sensed (fst (sensed1_of nltk sent1)) /\
   all_sensed (fst (sensed2_of nltk sent1 sent2))).
Proof.
  unfold sentsem_result. rewrite sentsem_run. cbn [fst].
  destruct (similarity_cases nltk (fst (sensed1_of nltk sent1))
              (fst (sensed2_of nltk sent1 sent2)))
    as [(H1 & H2 & Hs)|[(Hone & v & Hs & _)|[(H1 & H2 & Hnull & Hs)
       |(H1 & H2 & Hall1 & Hall2 & v & Hs)]]]; rewrite Hs; split.
  - intros [v Hv]. discriminate Hv.
  - intros [(_ & N)|[(N & _)|(N & _)]]; congruence.
  - intros _. destruct Hone as [?|?]; auto.
  - eauto.
  - intros [v Hv]. discriminate Hv.
  - intros [(E & _)|[(_ & E)|(_ & _ & A1 & A2)]]; try congruence.
    destruct Hnull as [Hn|Hn];
      [destruct (all_sensed_no_null _ A1 Hn)
      | destruct (all_sensed_no_null _ A2 Hn)].
  - intros _. right. right. auto.
  - eauto.
Qed.

(** X8. A sentence without tokens (empty, or stopwords and punctuation
    only) against a sentence with tokens scores 0, in either order and
    whether or not the tokens of the other sentence have senses. *)
Theorem one_sentence_without_tokens {Synset : Type} (nltk : NLTK Synset)
    (sent1 sent2 : string) :
  tagger_aligned nltk ->
  tokens_of nltk sent1 = [] /\ tokens_of nltk sent2 <> [] \/
  tokens_of nltk sent1 <> [] /\ tokens_of nltk sent2 = [] ->
  exists v, sentsem_result nltk sent1 sent2 = OK v /\ (v == 0)%Q.
Proof.
  intros Htag Hone.
  assert (H1 := sensed1_length nltk sent1 Htag).
  assert (H2 := sensed2_length nltk sent1 sent2 Htag).
  unfold sentsem_result. rewrite sentsem_run. cbn [fst].
  destruct (fst (sensed1_of nltk sent1)) as [|ws1 sensed1],
    (fst (sensed2_of nltk sent1 sent2)) as [|ws2 sensed2],
    (tokens_of nltk sent1) as [|t1 tokens1],
    (tokens_of nltk sent2) as [|t2 tokens2];
    try discriminate H1; try discriminate H2;
    try (destruct Hone as [[? ?]|[? ?]]; congruence).
  - apply (similarity_one_side_empty nltk (ws2 :: sensed2)). discriminate.
  - apply (similarity_one_side_empty nltk (ws1 :: sensed1)). discriminate.
Qed.

Lemma one_sentence_without_tokens_witness :
  tagger_aligned Mini.nltk /\
  tokens_of Mini.nltk "The, of -- a!" = [] /\
  tokens_of Mini.nltk "xyzzy dog" <> [] /\
  exists v,
    sentsem_result Mini.nltk "The, of -- a!" "xyzzy dog" = OK v /\
    (v == 0)%Q.
Proof.
  assert (H1 : tokens_of Mini.nltk "The, of -- a!" = []) by reflexivity.
  assert (H2 : tokens_of Mini.nltk "xyzzy dog" <> []) by discriminate.
  split; [exact mini_tagger_aligned|]. split; [exact H1|].
  split; [exact H2|].
  exact (one_sentence_without_tokens Mini.nltk "The, of -- a!" "xyzzy dog"
           mini_tagger_aligned (or_introl (conj H1 H2))).
Defined.

(** ** Bounds on the score *)


(** ** Unrelated senses *)

Section BuiltMatrixCells.

Context {Synset : Type} (nltk : NLTK Synset).
Variables (synsets1 synsets2 : list (option Synset)) (len1 len2 : nat).
Variable m : Np.ndarray.
Hypothesis Hbuilt : build_matrix nltk synsets1 synsets2 len1 len2 = OK m.
Variable P : Q -> Prop.
Hypothesis Hcell :
  forall i j, i < len1 -> j < len2 ->
              P (cell_value nltk synsets1 synsets2 i j).

Lemma built_rows_all : Forall (Forall P) (Np.data m).
Proof.
  destruct (build_matrix_spec nltk _ _ _ _ _ Hbuilt) as [Hwf Hcells].
  apply Forall_lookup. intros i row Hrow.
  apply Forall_lookup. intros j x Hx.
  destruct (row_cell _ _ _ _ _ _ _ Hwf Hrow Hx) as (Hi & Hj & Hc).
  rewrite (Hcells i j Hi Hj) in Hc. injection Hc as <-. now apply Hcell.
Qed.

Lemma built_columns_all : Forall (Forall P) (columns m).
Proof.
  destruct (build_matrix_spec nltk _ _ _ _ _ Hbuilt) as [Hwf Hcells].
  apply Forall_lookup. intros j col Hcol.
  destruct (column_cell _ _ _ _ _ Hwf Hcol) as (Hj & Hlen & Hcolumn).
  apply Forall_lookup. intros i x Hx.
  assert (Hi : i < len1) by (apply lookup_lt_Some in Hx; lia).
  rewrite (Hcolumn i Hi), (Hcells i j Hi Hj) in Hx. injection Hx as <-.
  now apply Hcell.
Qed.

End BuiltMatrixCells.

Lemma maxima_all (P : Q -> Prop) (maxima : list Q)
    (slices : list (list Q)) :
  Forall2 is_max_of maxima slices -> Forall (Forall P) slices ->
  Forall P maxima.
Proof.
  induction 1 as [|x xs maxima slices [Hin _] _ IH]; intros Hslices;
    [constructor|].
  apply Forall_cons in Hslices as [Hxs Hslices].
  constructor; [|now apply IH].
  rewrite List.Forall_forall in Hxs. now apply Hxs.
Qed.

Lemma sum_zeros (xs : list Q) :
  Forall (fun x => x = 0%Q) xs -> (Py.sum xs == 0)%Q.
Proof.
  intros Hxs. unfold Py.sum.
  assert (Hgen : forall a, (fold_left Qplus xs a == a)%Q).
  { induction Hxs as [|x xs -> _ IH]; intros a; [reflexivity|].
    cbn [fold_left]. rewrite IH. apply Qplus_0_r. }
  apply Hgen.
Qed.

Lemma similarity_unrelated {Synset : Type} (nltk : NLTK Synset)
    (sensed1 sensed2 : list (string * option Synset)) (v : Q) :
  (forall a b, In (Some a) (map snd sensed1) ->
               In (Some b) (map snd sensed2) ->
               path_similarity nltk a b = None) ->
  similarity nltk sensed1 sensed2 = OK v -> (v == 0)%Q.
Proof.
  intros Hnone. unfold similarity.
  set (len1 := length sensed1). set (len2 := length sensed2).
  destruct (build_matrix nltk _ _ len1 len2) as [m|e] eqn:Hm;
    [|discriminate].
  cbn [bind Result_Monad]. intros Hv.
  destruct (build_matrix_spec nltk _ _ _ _ _ Hm) as [Hwf _].
  assert (Hzero : forall i j, i < len1 -> j < len2 ->
            cell_value nltk (map snd sensed1) (map snd sensed2) i j = 0%Q).
  { intros i j _ _. unfold cell_value.
    destruct (map snd sensed1 !! i) as [[a|]|] eqn:Ha; try reflexivity.
    destruct (map snd sensed2 !! j) as [[b|]|] eqn:Hb; try reflexivity.
    rewrite (Hnone a b); [reflexivity| |];
      apply list_elem_of_In; eapply list_elem_of_lookup_2; eassumption. }
  assert (Hdone : forall maxima n,
            Forall (fun x => x = 0%Q) maxima ->
            (2 * Py.sum maxima / inject_Z (Z.of_nat n) == 0)%Q).
  { intros maxima n Hall. rewrite (sum_zeros maxima Hall).
    unfold Qdiv. ring. }
  destruct (Nat.lt_ge_cases len1 len2) as [Hlt|Hge].
  - destruct (aggregate_rows _ _ _ Hwf Hlt) as (maxima & Hmax & Hagg).
    rewrite Hagg in Hv. injection Hv as <-. apply Hdone.
    apply (maxima_all _ _ _ Hmax).
    now apply (built_rows_all nltk _ _ _ _ _ Hm).
  - destruct len1 as [|k] eqn:Hk.
    { assert (len2 = 0) as H0 by lia. rewrite H0 in *.
      now rewrite (aggregate_empty m Hwf) in Hv. }
    destruct (aggregate_columns _ _ _ Hwf Hge) as (maxima & Hmax & Hagg);
      [lia|].
    rewrite Hagg in Hv. injection Hv as <-. apply Hdone.
    apply (maxima_all _ _ _ Hmax).
    now apply (built_columns_all nltk _ _ _ _ _ Hm).
Qed.

(** X12. When no sense of sentence 1 has a defined path similarity to any
    sense of sentence 2 (for instance nouns against verbs), a returned
    score is 0. *)
Theorem unrelated_sentences_score_zero {Synset : Type} (nltk : NLTK Synset)
    (sent1 sent2 : string) (v : Q) :
  (forall a b,
     In (Some a) (map snd (fst (sensed1_of nltk sent1))) ->
     In (Some b) (map snd (fst (sensed2_of nltk sent1 sent2))) ->
     path_similarity nltk a b = None) ->
  sentsem_result nltk sent1 sent2 = OK v -> (v == 0)%Q.
Proof.
  intros Hnone. unfold sentsem_result. rewrite sentsem_run. cbn [fst].
  now apply similarity_unrelated.
Qed.

Lemma unrelated_sentences_score_zero_witness :
  sentsem_result Mini.nltk "The dog" "sat" = OK (2 * (0 + 0) / inject_Z 2)%Q
  /\ (2 * (0 + 0) / inject_Z 2 == 0)%Q.
Proof.
  assert (Hv : sentsem_result Mini.nltk "The dog" "sat"
               = OK (2 * (0 + 0) / inject_Z 2)%Q) by reflexivity.
  split; [exact Hv|].
  apply (unrelated_sentences_score_zero Mini.nltk "The dog" "sat" _);
    [|exact Hv].
  intros a b [[= <-]|[]] [[= <-]|[]]. reflexivity.
Defined.

(** ** Swapping the two sentences *)

Lemma is_max_of_unique (x y : Q) (xs : list Q) :
  is_max_of x xs -> is_max_of y xs -> (x == y)%Q.
Proof.
  intros [Hx Hxle] [Hy Hyle]. apply Qle_antisym; auto.
Qed.

Lemma maxima_unique (maxima maxima' : list Q) (slices : list (list Q)) :
  Forall2 is_max_of maxima slices -> Forall2 is_max_of maxima' slices ->
  Forall2 Qeq maxima maxima'.
Proof.
  intros H. revert maxima'.
  induction H as [|x xs maxima slices Hx _ IH]; intros maxima' H';
    inversion H' as [|y ? maxima'' ? Hy Hrest]; subst; constructor.
  - now apply (is_max_of_unique x y xs).
  - now apply IH.
Qed.

Lemma sum_Qeq (xs ys : list Q) :
  Forall2 Qeq xs ys -> (Py.sum xs == Py.sum ys)%Q.
Proof.
  intros H. unfold Py.sum.
  assert (Hgen : forall a b, (a == b)%Q ->
            (fold_left Qplus xs a == fold_left Qplus ys b)%Q).
  { induction H as [|x y xs ys Hxy _ IH]; intros a b Hab; [assumption|].
    cbn [fold_left]. apply IH. now rewrite Hab, Hxy. }
  now apply Hgen.
Qed.

Section Transpose.

Context {Synset : Type} (nltk : NLTK Synset).
Variables synsets1 synsets2 : list (option Synset).
Variables (len1 len2 : nat) (m m' : Np.ndarray).
Hypothesis Hsym :
  forall a b, path_similarity nltk a b = path_similarity nltk b a.
Hypothesis Hm : build_matrix nltk synsets1 synsets2 len1 len2 = OK m.
Hypothesis Hm' : build_matrix nltk synsets2 synsets1 len2 len1 = OK m'.

Lemma cell_value_swap (i j : nat) :
  cell_value nltk synsets2 synsets1 j i
  = cell_value nltk synsets1 synsets2 i j.
Proof.
  unfold cell_value.
  destruct (synsets1 !! i) as [[a|]|], (synsets2 !! j) as [[b|]|];
    try reflexivity.
  now rewrite Hsym.
Qed.

(** The columns of the matrix of the swapped call are the rows of the
    matrix of the call. *)
Lemma columns_of_swapped : columns m' = Np.data m.
Proof.
  destruct (build_matrix_spec nltk _ _ _ _ _ Hm) as [Hwf Hcells].
  destruct (build_matrix_spec nltk _ _ _ _ _ Hm') as [Hwf' Hcells'].
  assert (Hlen : length (columns m') = len1).
  { unfold columns. rewrite length_map, length_seq.
    destruct Hwf' as (-> & _). reflexivity. }
  apply list_eq. intros i.
  destruct (Nat.lt_ge_cases i len1) as [Hi|Hi].
  2:{ rewrite !lookup_ge_None_2; [reflexivity | | lia].
      destruct Hwf as (_ & -> & _). lia. }
  destruct (lookup_lt_is_Some_2 (columns m') i) as [col Hcol]; [lia|].
  destruct (lookup_lt_is_Some_2 (Np.data m) i) as [row Hrow].
  { destruct Hwf as (_ & -> & _). lia. }
  rewrite Hcol, Hrow. f_equal.
  destruct (column_cell _ _ _ _ _ Hwf' Hcol) as (_ & Hcollen & Hcolumn).
  assert (Hrowlen : length row = len2).
  { destruct Hwf as (_ & _ & Hrows). rewrite Forall_lookup in Hrows.
    now apply (Hrows i). }
  apply list_eq. intros j.
  destruct (Nat.lt_ge_cases j len2) as [Hj|Hj].
  2:{ rewrite !lookup_ge_None_2; [reflexivity | lia | lia]. }
  rewrite (Hcolumn j Hj), (Hcells' j i Hj Hi), cell_value_swap.
  rewrite <- (Hcells i j Hi Hj). unfold cell. now rewrite Hrow.
Qed.

End Transpose.

Lemma similarity_swap_lt {Synset : Type} (nltk : NLTK Synset)
    (sensed1 sensed2 : list (string * option Synset)) (v v' : Q) :
  (forall a b, path_similarity nltk a b = path_similarity nltk b a) ->
  length sensed1 < length sensed2 ->
  similarity nltk sensed1 sensed2 = OK v ->
  similarity nltk sensed2 sensed1 = OK v' ->
  (v == v')%Q.
Proof.
  intros Hsym Hlt. unfold similarity.
  set (len1 := length sensed1) in *. set (len2 := length sensed2) in *.
  destruct (build_matrix nltk _ _ len1 len2) as [m|e] eqn:Hm;
    [|discriminate].
  destruct (build_matrix nltk _ _ len2 len1) as [m'|e] eqn:Hm';
    [|discriminate].
  cbn [bind Result_Monad]. intros Hv Hv'.
  destruct (build_matrix_spec nltk _ _ _ _ _ Hm) as [Hwf _].
  destruct (build_matrix_spec nltk _ _ _ _ _ Hm') as [Hwf' _].
  destruct (aggregate_rows _ _ _ Hwf Hlt) as (maxima & Hmax & Hagg).
  destruct (aggregate_columns len2 len1 m' Hwf') as (maxima' & Hmax' & Hagg');
    [lia | lia |].
  rewrite Hagg in Hv. rewrite Hagg' in Hv'.
  injection Hv as <-. injection Hv' as <-.
  rewrite (columns_of_swapped nltk _ _ _ _ _ _ Hsym Hm Hm') in Hmax'.
  rewrite (sum_Qeq _ _ (maxima_unique _ _ _ Hmax Hmax')).
  now rewrite (Nat.add_comm len1 len2).
Qed.

Lemma resolved_without_retry {Synset : Type} (nltk : NLTK Synset)
    (sent fallback fallback' : string) (text : list (string * string)) :
  (forall wp, In wp text -> lesk nltk sent (fst wp) (snd wp) <> None) ->
  map (resolved nltk sent fallback) text
  = map (resolved nltk sent fallback') text /\
  all_sensed (map (resolved nltk sent fallback) text).
Proof.
  intros Hprimary. split.
  - apply map_ext_in. intros wp Hwp. unfold resolved.
    specialize (Hprimary wp Hwp).
    now destruct (lesk nltk sent (fst wp) (snd wp)).
  - apply List.Forall_forall. intros ws Hws.
    apply in_map_iff in Hws as (wp & <- & Hwp). unfold resolved. simpl.
    specialize (Hprimary wp Hwp).
    now destruct (lesk nltk sent (fst wp) (snd wp)).
Qed.

(** X13. If the path similarity of the hierarchy is symmetric, every token
    of both sentences gets a sense from its primary lookup, and the two
    sentences have different numbers of tokens, the score does not depend
    on the order of the two sentences. *)
Theorem sentsem_symmetric {Synset : Type} (nltk : NLTK Synset)
    (sent1 sent2 : string) (v : Q) :
  (forall a b, path_similarity nltk a b = path_similarity nltk b a) ->
  (forall wp, In wp (text_of nltk sent1) ->
     lesk nltk (Py.lower sent1) (fst wp) (snd wp) <> None) ->
  (forall wp, In wp (text_of nltk sent2) ->
     lesk nltk (Py.lower sent2) (fst wp) (snd wp) <> None) ->
  length (text_of nltk sent1) <> length (text_of nltk sent2) ->
  sentsem_result nltk sent1 sent2 = OK v ->
  exists v', sentsem_result nltk sent2 sent1 = OK v' /\ (v' == v)%Q.
Proof.
  intros Hsym Hp1 Hp2 Hlen. unfold sentsem_result.
  rewrite !sentsem_run, !sensed1_of_run, !sensed2_of_run. cbn [fst].
  set (l1 := Py.lower sent1). set (l2 := Py.lower sent2).
  destruct (resolved_without_retry nltk l1 l1 l2 _ Hp1) as [E1 A1].
  destruct (resolved_without_retry nltk l2 l2 l1 _ Hp2) as [E2 A2].
  rewrite <- E1, <- E2.
  set (sensed1 := map (resolved nltk l1 l1) (text_of nltk sent1)) in *.
  set (sensed2 := map (resolved nltk l2 l2) (text_of nltk sent2)) in *.
  assert (Hlen' : length sensed1 <> length sensed2)
    by (unfold sensed1, sensed2; now rewrite !length_map).
  intros Hv.
  destruct (similarity_returns nltk sensed2 sensed1 A2 A1) as [v' Hv'];
    [lia|].
  exists v'. split; [assumption|].
  destruct (Nat.lt_gt_cases (length sensed1) (length sensed2))
    as [Hcases _].
  destruct (Hcases Hlen') as [Hlt|Hgt].
  - symmetry. now apply (similarity_swap_lt nltk sensed1 sensed2).
  - now apply (similarity_swap_lt nltk sensed2 sensed1).
Qed.

Lemma mini_path_symmetric (a b : string) :
  path_similarity Mini.nltk a b = path_similarity Mini.nltk b a.
Proof.
  simpl. unfold Mini.path. rewrite (String.eqb_sym b a).
  destruct (String.eqb a b); [reflexivity|].
  destruct (String.eqb a "dog.n.01"), (String.eqb b "cat.n.01"),
    (String.eqb a "cat.n.01"), (String.eqb b "dog.n.01"); reflexivity.
Qed.

Lemma sentsem_symmetric_witness :
  sentsem_result Mini.nltk "The dog" "a dog, a cat"
  = OK (2 * (0 + 1) / inject_Z 3)%Q /\
  exists v',
    sentsem_result Mini.nltk "a dog, a cat" "The dog" = OK v' /\
    (v' == 2 * (0 + 1) / inject_Z 3)%Q.
Proof.
  assert (Hv : sentsem_result Mini.nltk "The dog" "a dog, a cat"
               = OK (2 * (0 + 1) / inject_Z 3)%Q) by reflexivity.
  split; [exact Hv|].
  apply (sentsem_symmetric Mini.nltk "The dog" "a dog, a cat" _
           mini_path_symmetric); [| | discriminate | exact Hv].
  - intros wp Hwp. vm_compute in Hwp. destruct Hwp as [<-|[]].
    discriminate.
  - intros wp Hwp. vm_compute in Hwp. destruct Hwp as [<-|[<-|[]]];
      discriminate.
Defined.

(** * The score under floating-point rounding *)

(** ** The rounded computation and the exact one *)

Lemma for_each_ext {S : Type} (body body' : nat -> S -> Result S)
    (l : list nat) (s : S) :
  (forall i t, body i t = body' i t) ->
  Py.for_each l body s = Py.for_each l body' s.
Proof.
  intros Hext. revert s. induction l as [|i l IH]; intros s; simpl.
  - reflexivity.
  - rewrite Hext. destruct (body' i s); [apply IH | reflexivity].
Qed.

Section Rounded.

Context {Synset : Type} (fl : Float) (nltk : NLTK Synset).

Lemma method_path_similarity_rounded
    (synsets1 synsets2 : list (option Synset)) (row col : nat) :
  method_path_similarity (rounded fl nltk) synsets1 synsets2 row col
  = match method_path_similarity nltk synsets1 synsets2 row col with
    | OK (Some q) => OK (Some (float32 fl q))
    | OK None => OK None
    | Raise e => Raise e
    end.
Proof.
  unfold method_path_similarity, Py.getitem. simpl.
  destruct (synsets1 !! row) as [[a|]|]; try reflexivity.
  destruct (synsets2 !! col) as [[b|]|]; try reflexivity.
  now destruct (path_similarity nltk a b).
Qed.

(** Storing the rounded similarity is building the matrix for a
    hierarchy whose similarities are already rounded. *)
Lemma cell_body_fl_rounded (synsets1 synsets2 : list (option Synset))
    (row col : nat) (m : Np.ndarray) :
  cell_body_fl fl nltk synsets1 synsets2 row col m
  = cell_body (rounded fl nltk) synsets1 synsets2 row col m.
Proof.
  unfold cell_body_fl, cell_body. rewrite method_path_similarity_rounded.
  simpl.
  destruct (method_path_similarity nltk synsets1 synsets2 row col)
    as [[q|]|e]; reflexivity.
Qed.

Lemma build_matrix_fl_rounded (synsets1 synsets2 : list (option Synset))
    (len1 len2 : nat) :
  build_matrix_fl fl nltk synsets1 synsets2 len1 len2
  = build_matrix (rounded fl nltk) synsets1 synsets2 len1 len2.
Proof.
  unfold build_matrix_fl, build_matrix, Py.for_range.
  apply for_each_ext. intros row t. apply for_each_ext. intros col u.
  apply cell_body_fl_rounded.
Qed.

Lemma sentsem_fl_run (sent1 sent2 : string) :
  sentsem_fl fl nltk sent1 sent2 []
  = (similarity_fl fl nltk (fst (sensed1_of nltk sent1))
                           (fst (sensed2_of nltk sent1 sent2)),
     snd (sensed1_of nltk sent1) ++ snd (sensed2_of nltk sent1 sent2)).
Proof.
  rewrite sensed1_of_run, sensed2_of_run.
  unfold sentsem_fl, text_of, tokens_of.
  cbn [bind Traced_Monad ret]. rewrite !comprehension_run. reflexivity.
Qed.

End Rounded.

(** With operations that do not round, the rounded computation is the
    exact one. *)
Lemma sentsem_fl_exact {Synset : Type} (nltk : NLTK Synset)
    (sent1 sent2 : string) :
  sentsem_fl exact_arithmetic nltk sent1 sent2 []
  = sentsem nltk sent1 sent2 [].
Proof.
  rewrite sentsem_fl_run, sentsem_run. reflexivity.
Qed.

(** ** The aggregator *)

Lemma truediv_fl_pos (fl : Float) (x : Q) (n : nat) :
  0 < n -> truediv_fl fl x n = OK (fdiv fl x (inject_Z (Z.of_nat n))).
Proof.
  intros Hn. unfold truediv_fl.
  destruct (Nat.eqb_spec n 0); [lia | reflexivity].
Qed.

Lemma aggregate_fl_rows (fl : Float) (len1 len2 : nat) (m : Np.ndarray) :
  well_shaped len1 len2 m -> len1 < len2 ->
  exists maxima,
    Forall2 is_max_of maxima (Np.data m) /\
    summed_maxima m len1 len2 = OK maxima /\
    aggregate_fl fl m len1 len2
    = OK (normalized_sum fl maxima (len1 + len2)).
Proof.
  intros Hshape Hlt. exists (map Np.amax (Np.data m)).
  unfold aggregate_fl, summed_maxima.
  destruct (Nat.ltb_spec len1 len2); [|lia].
  assert (Hmax : Np.max_axis1 m = OK (map Np.amax (Np.data m))).
  { unfold Np.max_axis1. destruct Hshape as (-> & _). simpl.
    destruct len2; [lia | reflexivity]. }
  split; [|split; [assumption|]].
  - destruct Hshape as (_ & _ & Hrows). apply (row_maxima len2); [lia|].
    assumption.
  - rewrite Hmax. simpl. unfold normalized_sum, sum_fl.
    apply truediv_fl_pos. lia.
Qed.

Lemma aggregate_fl_columns (fl : Float) (len1 len2 : nat)
    (m : Np.ndarray) :
  well_shaped len1 len2 m -> len2 <= len1 -> 0 < len1 ->
  exists maxima,
    Forall2 is_max_of maxima (columns m) /\
    summed_maxima m len1 len2 = OK maxima /\
    aggregate_fl fl m len1 len2
    = OK (normalized_sum fl maxima (len1 + len2)).
Proof.
  intros Hshape Hle Hpos.
  destruct (max_axis0_total _ _ _ Hshape Hpos) as [maxima Hmax].
  exists maxima. unfold aggregate_fl, summed_maxima.
  destruct (Nat.ltb_spec len1 len2); [lia|].
  split; [now apply (column_maxima len1 len2)|]. split; [assumption|].
  rewrite Hmax. simpl. unfold normalized_sum, sum_fl.
  apply truediv_fl_pos. lia.
Qed.

(** C7 as worded does not hold on a tie without tokens: with
    [len1 = len2 = 0] the column branch is taken and raises, so no score
    equal to the formula is returned. *)
Lemma aggregate_tie_counterexample :
  ~ (forall (len1 len2 : nat) (m : Np.ndarray),
       well_shaped len1 len2 m -> len2 <= len1 ->
       exists maxima,
         Forall2 is_max_of maxima (columns m) /\
         aggregate_fl IEEE.single m len1 len2
         = OK (normalized_sum IEEE.single maxima (len1 + len2))).
Proof.
  intros H.
  destruct (H 0 0 (Np.zeros 0 0) (zeros_well_shaped 0 0) (Nat.le_refl 0))
    as (maxima & _ & Hagg).
  discriminate Hagg.
Qed.

(** C7, amended. The row maxima are taken exactly when [len1 < len2];
    equal lengths and [len1 > len2] take the column maxima; and whenever
    one of the two sentences has a token, the score is the floating-point
    value of twice the sum of these maxima, added left to right, divided
    by [len1 + len2], whatever the rounding of the operations. *)
Theorem aggregate_fl_branches (fl : Float) (len1 len2 : nat)
    (m : Np.ndarray) :
  well_shaped len1 len2 m -> 0 < len1 + len2 ->
  (len1 < len2 ->
   exists maxima,
     Forall2 is_max_of maxima (Np.data m) /\
     aggregate_fl fl m len1 len2
     = OK (fdiv fl (fmul fl 2 (fold_left (fadd fl) maxima 0%Q))
             (inject_Z (Z.of_nat (len1 + len2))))) /\
  (len2 <= len1 ->
   exists maxima,
     Forall2 is_max_of maxima (columns m) /\
     aggregate_fl fl m len1 len2
     = OK (fdiv fl (fmul fl 2 (fold_left (fadd fl) maxima 0%Q))
             (inject_Z (Z.of_nat (len1 + len2))))).
Proof.
  intros Hshape Hpos. split.
  - intros Hlt.
    destruct (aggregate_fl_rows fl _ _ _ Hshape Hlt)
      as (maxima & Hmax & _ & Hagg).
    exists maxima. now split.
  - intros Hle.
    destruct (aggregate_fl_columns fl _ _ _ Hshape Hle)
      as (maxima & Hmax & _ & Hagg); [lia|].
    exists maxima. now split.
Qed.

Lemma aggregate_fl_branches_witness :
  let rows :=
    Np.mkArray (2, 3)
      [[1; 13421773 # 67108864; 1];
       [13421773 # 67108864; 1; 13421773 # 67108864]]%Q in
  let cols :=
    Np.mkArray (2, 2) [[1; 13421773 # 67108864]; [0; 1 # 2]]%Q in
  (well_shaped 2 3 rows /\
   aggregate_fl IEEE.single rows 2 3 = OK (13421773 # 16777216)%Q /\
   exists maxima,
     Forall2 is_max_of maxima (Np.data rows) /\
     aggregate_fl IEEE.single rows 2 3
     = OK (fdiv IEEE.single
             (fmul IEEE.single 2 (fold_left (fadd IEEE.single) maxima 0%Q))
             (inject_Z (Z.of_nat (2 + 3))))) /\
  (well_shaped 2 2 cols /\
   aggregate_fl IEEE.single cols 2 2 = OK (3 # 4)%Q /\
   exists maxima,
     Forall2 is_max_of maxima (columns cols) /\
     aggregate_fl IEEE.single cols 2 2
     = OK (fdiv IEEE.single
             (fmul IEEE.single 2 (fold_left (fadd IEEE.single) maxima 0%Q))
             (inject_Z (Z.of_nat (2 + 2))))).
Proof.
  intros rows cols.
  assert (Hrows : well_shaped 2 3 rows)
    by (repeat split; repeat constructor).
  assert (Hcols : well_shaped 2 2 cols)
    by (repeat split; repeat constructor).
  split; (split; [assumption|]); (split; [vm_compute; reflexivity|]).
  - apply (proj1 (aggregate_fl_branches IEEE.single 2 3 rows Hrows
                    ltac:(lia))). lia.
  - apply (proj2 (aggregate_fl_branches IEEE.single 2 2 cols Hcols
                    ltac:(lia))). lia.
Defined.

(** ** Repeated tokens and the maxima that are summed *)

Lemma build_matrix_fl_shape {Synset : Type} (fl : Float)
    (nltk : NLTK Synset) (synsets1 synsets2 : list (option Synset))
    (len1 len2 : nat) (m : Np.ndarray) :
  build_matrix_fl fl nltk synsets1 synsets2 len1 len2 = OK m ->
  well_shaped len1 len2 m.
Proof.
  rewrite build_matrix_fl_rounded. intros Hm.
  now apply (build_matrix_spec (rounded fl nltk) _ _ _ _ _ Hm).
Qed.

(** C10 as worded does not hold in its last part: an occurrence on the
    side whose maxima are not taken contributes no maximum. For
    ["dog dog dog"] against ["cat"] a single column maximum is summed,
    although ["dog"] occurs three times. *)
Lemma repeated_tokens_counterexample :
  ~ (forall (sent1 sent2 w : string) (m : Np.ndarray) (maxima : list Q),
       build_matrix_fl IEEE.single Mini.nltk
         (map snd (fst (sensed1_of Mini.nltk sent1)))
         (map snd (fst (sensed2_of Mini.nltk sent1 sent2)))
         (length (fst (sensed1_of Mini.nltk sent1)))
         (length (fst (sensed2_of Mini.nltk sent1 sent2))) = OK m ->
       summed_maxima m (length (tokens_of Mini.nltk sent1))
         (length (tokens_of Mini.nltk sent2)) = OK maxima ->
       count_occ string_dec (tokens_of Mini.nltk sent1) w <= length maxima /\
       count_occ string_dec (tokens_of Mini.nltk sent2) w <= length maxima).
Proof.
  intros H.
  destruct (H "dog dog dog" "cat" "dog"
              (Np.mkArray (3, 1)
                 [[13421773 # 67108864]; [13421773 # 67108864];
                  [13421773 # 67108864]]%Q)
              [13421773 # 67108864]%Q eq_refl eq_refl) as [H3 _].
  vm_compute in H3. lia.
Qed.

(** C10, amended. Nothing deduplicates tokens. A word that is not a
    stopword occurs among the tokens as often as in the tokenized
    sentence; every occurrence is one row (sentence 1) or one column
    (sentence 2) of the matrix and one unit of [len1] or [len2]. With
    [len1 < len2] the maxima that are summed are the row maxima, one per
    occurrence in sentence 1; otherwise they are the column maxima, one
    per occurrence in sentence 2; occurrences on the other side add no
    maximum. Whenever one of the sentences has a token, the score is
    twice that sum, added left to right, divided by [len1 + len2], in the
    floating-point arithmetic of the code. *)
Theorem repeated_tokens_rows_and_columns {Synset : Type} (fl : Float)
    (nltk : NLTK Synset) (sent1 sent2 : string) :
  tagger_aligned nltk ->
  (forall w, Py.contains (stopwords nltk) w = false ->
     count_occ string_dec (tokens_of nltk sent1) w
     = count_occ string_dec (Re.tokenize (Py.lower sent1)) w /\
     count_occ string_dec (tokens_of nltk sent2) w
     = count_occ string_dec (Re.tokenize (Py.lower sent2)) w) /\
  length (fst (sensed1_of nltk sent1)) = length (tokens_of nltk sent1) /\
  length (fst (sensed2_of nltk sent1 sent2))
  = length (tokens_of nltk sent2) /\
  forall m,
    build_matrix_fl fl nltk
      (map snd (fst (sensed1_of nltk sent1)))
      (map snd (fst (sensed2_of nltk sent1 sent2)))
      (length (fst (sensed1_of nltk sent1)))
      (length (fst (sensed2_of nltk sent1 sent2))) = OK m ->
    let len1 := length (tokens_of nltk sent1) in
    let len2 := length (tokens_of nltk sent2) in
    well_shaped len1 len2 m /\
    (len1 < len2 ->
     exists maxima,
       summed_maxima m len1 len2 = OK maxima /\
       Forall2 is_max_of maxima (Np.data m) /\
       length maxima = len1 /\
       sentsem_fl_result fl nltk sent1 sent2
       = OK (fdiv fl (fmul fl 2 (fold_left (fadd fl) maxima 0%Q))
               (inject_Z (Z.of_nat (len1 + len2))))) /\
    (len2 <= len1 -> 0 < len1 ->
     exists maxima,
       summed_maxima m len1 len2 = OK maxima /\
       Forall2 is_max_of maxima (columns m) /\
       length maxima = len2 /\
       sentsem_fl_result fl nltk sent1 sent2
       = OK (fdiv fl (fmul fl 2 (fold_left (fadd fl) maxima 0%Q))
               (inject_Z (Z.of_nat (len1 + len2))))).
Proof.
  intros Htag.
  assert (H1 := sensed1_length nltk sent1 Htag).
  assert (H2 := sensed2_length nltk sent1 sent2 Htag).
  split; [|split; [exact H1 | split; [exact H2|]]].
  - intros w Hw. unfold tokens_of, remove_stopwords.
    split; apply count_occ_filter; now rewrite Hw.
  - intros m Hm len1 len2. subst len1 len2.
    assert (Hwf := build_matrix_fl_shape fl nltk _ _ _ _ _ Hm).
    assert (Hres : sentsem_fl_result fl nltk sent1 sent2
                   = aggregate_fl fl m
                       (length (fst (sensed1_of nltk sent1)))
                       (length (fst (sensed2_of nltk sent1 sent2)))).
    { unfold sentsem_fl_result. rewrite sentsem_fl_run. cbn [fst].
      unfold similarity_fl. now rewrite Hm. }
    rewrite H1, H2 in Hwf, Hres. split; [exact Hwf|]. split.
    + intros Hlt.
      destruct (aggregate_fl_rows fl _ _ _ Hwf Hlt)
        as (maxima & Hmax & Hsummed & Hagg).
      exists maxima. repeat split; try assumption.
      * apply Forall2_length in Hmax. destruct Hwf as (_ & Hlen & _).
        now rewrite Hmax.
      * now rewrite Hres.
    + intros Hle Hpos.
      destruct (aggregate_fl_columns fl _ _ _ Hwf Hle Hpos)
        as (maxima & Hmax & Hsummed & Hagg).
      exists maxima. repeat split; try assumption.
      * apply Forall2_length in Hmax. unfold columns in Hmax.
        rewrite length_map, length_seq in Hmax.
        destruct Hwf as (Hs & _). now rewrite Hs in Hmax.
      * now rewrite Hres.
Qed.

Lemma repeated_tokens_rows_and_columns_witness :
  tagger_aligned Mini.nltk /\
  tokens_of Mini.nltk "The dog, the DOG" = ["dog"; "dog"]%string /\
  length (fst (sensed1_of Mini.nltk "The dog, the DOG")) = 2 /\
  sentsem_fl_result IEEE.single Mini.nltk
    "The dog, the DOG" "a dog, a cat, a dog"
  = OK (13421773 # 16777216)%Q /\
  exists maxima,
    length maxima = 2 /\
    sentsem_fl_result IEEE.single Mini.nltk
      "The dog, the DOG" "a dog, a cat, a dog"
    = OK (fdiv IEEE.single
            (fmul IEEE.single 2 (fold_left (fadd IEEE.single) maxima 0%Q))
            (inject_Z (Z.of_nat (2 + 3)))).
Proof.
  split; [exact mini_tagger_aligned|]. split; [reflexivity|].
  destruct (repeated_tokens_rows_and_columns IEEE.single Mini.nltk
              "The dog, the DOG" "a dog, a cat, a dog"
              mini_tagger_aligned) as (_ & H1 & _ & Hm).
  split; [exact H1|]. split; [vm_compute; reflexivity|].
  destruct (Hm (Np.mkArray (2, 3)
                  [[1; 13421773 # 67108864; 1];
                   [1; 13421773 # 67108864; 1]]%Q) eq_refl)
    as (_ & Hrows & _).
  destruct (Hrows ltac:(simpl; lia)) as (maxima & _ & _ & Hlen & Hres).
  exists maxima. split; [exact Hlen | exact Hres].
Defined.

(** ** The contents of the matrix *)

(** X9. When the matrix is built, every synset involved is non-null and
    cell (i, j) holds the path similarity of the i-th synset of sentence 1
    and the j-th synset of sentence 2 converted to [np.float32], or 0
    where that similarity is undefined. *)
Theorem matrix_cells {Synset : Type} (fl : Float) (nltk : NLTK Synset)
    (synsets1 synsets2 : list (option Synset)) (m : Np.ndarray) :
  build_matrix_fl fl nltk synsets1 synsets2
    (length synsets1) (length synsets2) = OK m ->
  forall i j, i < length synsets1 -> j < length synsets2 ->
  exists a b,
    synsets1 !! i = Some (Some a) /\ synsets2 !! j = Some (Some b) /\
    cell m i j = Some (match path_similarity nltk a b with
                       | Some q => float32 fl q
                       | None => 0%Q
                       end).
Proof.
  intros Hm i j Hi Hj. rewrite build_matrix_fl_rounded in Hm.
  destruct (build_matrix_spec (rounded fl nltk) _ _ _ _ _ Hm) as [_ Hcells].
  specialize (Hcells i j Hi Hj). unfold cell_value in Hcells.
  destruct (lookup_lt_is_Some_2 synsets1 i Hi) as [a Ha].
  destruct (lookup_lt_is_Some_2 synsets2 j Hj) as [b Hb].
  assert (Hnull : ~ (In None synsets1 \/ In None synsets2)).
  { intros Hnull.
    rewrite (build_matrix_null (rounded fl nltk) synsets1 synsets2
               _ _ eq_refl eq_refl)
      in Hm; [discriminate | lia | lia | assumption]. }
  destruct a as [a|].
  2:{ destruct Hnull. left. apply list_elem_of_In.
      eapply list_elem_of_lookup_2. eassumption. }
  destruct b as [b|].
  2:{ destruct Hnull. right. apply list_elem_of_In.
      eapply list_elem_of_lookup_2. eassumption. }
  exists a, b. rewrite Ha, Hb in Hcells.
  split; [assumption|]. split; [assumption|].
  rewrite Hcells. simpl. now destruct (path_similarity nltk a b).
Qed.

Lemma matrix_cells_witness :
  let synsets1 := [Some "run.v.01"; Some "dog.n.01"]%string in
  let synsets2 := [Some "cat.n.01"]%string in
  build_matrix_fl IEEE.single Mini.nltk synsets1 synsets2 2 1
  = OK (Np.mkArray (2, 1) [[0]; [13421773 # 67108864]]%Q) /\
  exists a b,
    synsets1 !! 1 = Some (Some a) /\ synsets2 !! 0 = Some (Some b) /\
    cell (Np.mkArray (2, 1) [[0]; [13421773 # 67108864]]%Q) 1 0
    = Some (match path_similarity Mini.nltk a b with
            | Some q => float32 IEEE.single q
            | None => 0%Q
            end).
Proof.
  split; [reflexivity|].
  exact (matrix_cells IEEE.single Mini.nltk
           [Some "run.v.01"; Some "dog.n.01"]%string
           [Some "cat.n.01"]%string
           (Np.mkArray (2, 1) [[0]; [13421773 # 67108864]]%Q)
           eq_refl 1 0 ltac:(simpl; lia) ltac:(simpl; lia)).
Defined.
